(** * csv2ranking: pairwise judgments to a global ranking (Lopez 2012 MFAS)

    A shallow embedding of [ptm/wmt-rank/lopez/csv2ranking.py].

    - Python integers are [Z] and [str] values are [string].
    - The [Counter]s of [sort_tgts] are [gmap]s keyed by pairs of system
      identifiers; the vertex [set] is a [gset].
    - A [BitVector] is an object: its bits and its identity.  The class
      compares two vectors by their bits and defines no hash of its own, so
      as a dictionary key a vector is found by identity only; its
      constructor refuses an empty list of bits.
    - The agenda of [run_lopez_mfas_solver] is an association list keyed
      by these objects.  The order in which the dictionary yields its
      values decides which of several cheapest hypotheses is expanded;
      Python leaves it open, so it is the parameter [itervalues] of the
      search, and the properties of the search are proved for every such
      order.
    - The [while] loop of the search runs on fuel; [search_fuel] is shown
      to be enough for every input.
    - [mfas_solver.lopez_solver], which [sort_tgts] calls, is a module
      outside this file: it is a parameter of [sort_tgts].
    - A raised exception is the [Raise] outcome of [result] in the parsing
      code and [None] in the ranking code.  The debugging [print]s of the
      search are left out.  The answer file is the list of the rows that
      [DictReader] yields, each with its four columns, and the output is
      the list of the calls of [csv_out.writerow]. *)

From Stdlib Require Import ZArith Lia List Permutation Ascii String.
From stdpp Require Import base option list strings gmap fin_maps pretty sorting.

Local Open Scope string_scope.
Local Open Scope list_scope.
Local Open Scope Z_scope.

(** ** Exceptions *)

(** [RuntimeError] carries its message.  The message of the [ValueError]
    of [int()], which quotes the literal, is not represented. *)
Inductive exn :=
| RuntimeError (msg : string)
| ValueError.

Inductive result (A : Type) :=
| Ok (a : A)
| Raise (e : exn).
Arguments Ok {A} a.
Arguments Raise {A} e.

#[global] Instance result_bind : MBind result := fun A B k r =>
  match r with
  | Ok a => k a
  | Raise e => Raise e
  end.

Definition is_raise {A} (r : result A) : Prop :=
  match r with Ok _ => False | Raise _ => True end.

(** ** The built-in [int()] on a [str]

    [int(src_id)] accepts an optional sign followed by one or more decimal
    digits, with surrounding blanks ignored, and raises [ValueError] on
    anything else. *)

Definition digit_of (c : ascii) : option Z :=
  let n := Z.of_nat (nat_of_ascii c) in
  if ((48 <=? n) && (n <=? 57))%Z then Some (n - 48) else None.

Fixpoint digits_value (acc : Z) (s : string) : option Z :=
  match s with
  | EmptyString => Some acc
  | String c s' =>
      match digit_of c with
      | Some d => digits_value (10 * acc + d) s'
      | None => None
      end
  end.

Definition is_blank (c : ascii) : bool :=
  let n := nat_of_ascii c in
  (Nat.eqb n 32 || ((9 <=? n)%nat && (n <=? 13)%nat))%bool.

Fixpoint lstrip (s : string) : string :=
  match s with
  | String c s' => if is_blank c then lstrip s' else s
  | EmptyString => EmptyString
  end.

Fixpoint rstrip (s : string) : string :=
  match s with
  | EmptyString => EmptyString
  | String c s' =>
      match rstrip s' with
      | EmptyString => if is_blank c then EmptyString else String c EmptyString
      | t => String c t
      end
  end.

Definition unsigned_value (s : string) : option Z :=
  match s with
  | EmptyString => None
  | _ => digits_value 0 s
  end.

Definition py_int (s : string) : result Z :=
  let body := lstrip (rstrip s) in
  let parsed :=
    match body with
    | String "-" t => Z.opp <$> unsigned_value t
    | String "+" t => unsigned_value t
    | t => unsigned_value t
    end in
  match parsed with
  | Some n => Ok n
  | None => Raise ValueError
  end.

(** ** class Ranking *)

Record Ranking := mkRanking {
  src_id : Z;
  sysA : string;
  sysB : string;
  rank : Z
}.

(** [Ranking.rank_to_int] *)
Definition rank_to_int (rank : string) : result Z :=
  if String.eqb rank "<" then Ok (-1)
  else if String.eqb rank ">" then Ok 1
  else if String.eqb rank "=" then Ok 0
  else Raise (RuntimeError ("Invalid ranking: " +:+ rank)).

(** [Ranking.__init__] *)
Definition Ranking_init (src_id sys1_id sys2_id rank : string) : result Ranking :=
  src ← py_int src_id;
  r ← rank_to_int rank;
  if r <? 0 then
    (* A is better than B *)
    Ok (mkRanking src sys1_id sys2_id (r * -1))
  else
    (* B is better than or equal to A *)
    Ok (mkRanking src sys2_id sys1_id r).

(** One row of the answer file, as [DictReader] yields it: the columns
    [segmentId], [system1], [system2] and [cmp]. *)
Record answer_row := mkRow {
  segmentId : string;
  system1 : string;
  system2 : string;
  cmp : string
}.

Definition ranking_of_row (row : answer_row) : result Ranking :=
  Ranking_init (segmentId row) (system1 row) (system2 row) (cmp row).

(** The loop of [parse_answer_file] without its counter: [src2rank] maps
    a segment to its rankings in file order; the first row that raises
    ends the loop with that exception. *)
Fixpoint parse_rows (rows : list answer_row) (src2rank : gmap Z (list Ranking))
  : result (gmap Z (list Ranking)) :=
  match rows with
  | [] => Ok src2rank
  | row :: rows' =>
      ranking ← ranking_of_row row;
      parse_rows rows'
        (<[src_id ranking := default [] (src2rank !! src_id ranking) ++ [ranking]]> src2rank)
  end.

(** ** Output rows *)

Record RankRow := mkRankRow {
  row_src_id : option Z;
  sys_id : string;
  row_rank : Z
}.

(** [make_rows]: [tie_with_prev[i]] raises [IndexError] past the end of
    the tie vector. *)
Fixpoint make_rows_from (i : nat) (last_rank : Z) (id_list : list string)
    (tie_with_prev : list bool) : option (list RankRow) :=
  match id_list with
  | [] => Some []
  | sys_id :: rest =>
      tie ← tie_with_prev !! i;
      let rank := if tie : bool then last_rank else Z.of_nat i + 1 in
      rows ← make_rows_from (S i) rank rest tie_with_prev;
      Some (mkRankRow None sys_id rank :: rows)
  end.

Definition make_rows (id_list : list string) (tie_with_prev : list bool)
  : option (list RankRow) :=
  make_rows_from 0 0 id_list tie_with_prev.

(** ** Edges and ties *)

Abbreviation edge := (string * string)%type.

(** The body of the loop of [mark_ties] at index [i]. *)
Definition mark_tie (ranking : list string) (edges : gmap edge Z)
    (tie_with_prev : list bool) (i : nat) : list bool :=
  match ranking !! (i - 1)%nat, ranking !! i with
  | Some prev_v, Some v =>
      match edges !! (prev_v, v) with
      | Some w => if w =? 0 then <[i := true]> tie_with_prev else tie_with_prev
      | None => tie_with_prev
      end
  | _, _ => tie_with_prev
  end.

(** [mark_ties] *)
Definition mark_ties (ranking : list string) (edges : gmap edge Z) : list bool :=
  foldl (mark_tie ranking edges)
        (replicate (length ranking) false)
        (seq 1 (length ranking - 1)).

(** ** Aggregation of the judgments of one segment ([sort_tgts]) *)

(** [Counter.__getitem__]: a missing key counts 0 and is not inserted. *)
Definition counter_get (c : gmap edge Z) (k : edge) : Z := default 0 (c !! k).

(** [c[k] += 1] *)
Definition counter_incr (c : gmap edge Z) (k : edge) : gmap edge Z :=
  <[k := counter_get c k + 1]> c.

Record tallies := mkTallies {
  di_edges : gmap edge Z;
  eq_edges : gmap edge Z;
  edge_counts : gmap edge Z;
  vertices : gset string
}.

(** The body of the first loop of [sort_tgts]. *)
Definition tally (t : tallies) (ranking : Ranking) : tallies :=
  let edge := (sysA ranking, sysB ranking) in
  {| vertices := {[sysB ranking]} ∪ ({[sysA ranking]} ∪ vertices t);
     edge_counts := counter_incr (edge_counts t) edge;
     eq_edges := if rank ranking =? 0 then counter_incr (eq_edges t) edge else eq_edges t;
     di_edges := if rank ranking =? 0 then di_edges t else counter_incr (di_edges t) edge |}.

Definition aggregate (ranking_list : list Ranking) : tallies :=
  foldl tally (mkTallies ∅ ∅ ∅ ∅) ranking_list.

(** The equality special case.  [perc_eq >= 0.5] is decided on the exact
    quotient [n_eq / total]; the double-precision quotient of the source
    decides the same for counts below 2^53.  A zero [total] is the
    [ZeroDivisionError] of the float division. *)
Definition resolve_step (eq_edges edge_counts : gmap edge Z)
    (acc : option (gmap edge Z)) (item : edge * Z) : option (gmap edge Z) :=
  di_edges ← acc;
  let '((a, b), n_eq) := item in
  let n_eq := n_eq + counter_get eq_edges (b, a) in
  let total := counter_get edge_counts (a, b) + counter_get edge_counts (b, a) in
  if total =? 0 then None
  else if 0 <? total then
    if total <=? 2 * n_eq then Some (delete (b, a) (delete (a, b) di_edges))
    else Some di_edges
  else
    if 2 * n_eq <=? total then Some (delete (b, a) (delete (a, b) di_edges))
    else Some di_edges.

Definition resolve_equality (t : tallies) : option (gmap edge Z) :=
  foldl (resolve_step (eq_edges t) (edge_counts t)) (Some (di_edges t))
        (map_to_list (eq_edges t)).

(** The tournament filter: one directed edge between two vertices.
    [None] is the failure of [assert ab_cost >= 0]. *)
Definition reduce_step (di_edges : gmap edge Z)
    (acc : option (gmap edge Z)) (key : edge) : option (gmap edge Z) :=
  tournament ← acc;
  let '(a, b) := key in
  let ab_cost := counter_get di_edges (a, b) in
  if ab_cost <? 0 then None
  else
    match di_edges !! (b, a) with
    | Some ba_cost =>
        let cost_diff := ab_cost - ba_cost in
        if 0 <? cost_diff then Some (<[(a, b) := cost_diff]> tournament)
        else if cost_diff <? 0 then Some (<[(b, a) := -1 * cost_diff]> tournament)
        else Some tournament
    | None => Some (<[(a, b) := ab_cost]> tournament)
    end.

Definition reduce_tournament (di_edges : gmap edge Z) : option (gmap edge Z) :=
  foldl (reduce_step di_edges) (Some ∅) (map_to_list di_edges).*1.

(** [sort_tgts].  The ranking comes from [mfas_solver.lopez_solver], a
    module outside this file, taken here as the parameter [lopez_solver];
    [list(vertices)] is the set in the order [elements] gives. *)
Definition sort_tgts
    (lopez_solver : gmap edge Z → list string → option (list string))
    (ranking_list : list Ranking) : option (list RankRow) :=
  let t := aggregate ranking_list in
  di_edges ← resolve_equality t;
  tournament ← reduce_tournament di_edges;
  let vertices := elements (vertices t) in
  ranking ← lopez_solver tournament vertices;
  (* Sanity check *)
  if decide (length ranking = length vertices) then
    let tie_with_prev := mark_ties ranking di_edges in
    make_rows ranking tie_with_prev
  else None.

(** ** The MFAS search ([run_lopez_mfas_solver]) *)

(** A [BitVector] object: its identity and its bits.  [__eq__] compares
    the bits; the class defines no [__hash__], so a dictionary finds a
    vector by its identity, and two vectors with the same bits are two
    keys. *)
Record BitVector := mkBitVector {
  ident : nat;
  bits : list bool
}.

(** [BitVector(bitlist=...)], which raises [ValueError] on an empty list;
    [fresh] is the identity of the new object. *)
Definition BitVector_bitlist (fresh : nat) (bitlist : list bool) : option BitVector :=
  match bitlist with
  | [] => None
  | _ => Some (mkBitVector fresh bitlist)
  end.

(** [BitVector(intVal=0, size=n)] *)
Definition BitVector_zero (fresh : nat) (size : nat) : BitVector :=
  mkBitVector fresh (replicate size false).

(** [BitVector(intVal=int(bv), size=n)] for a vector [bv] of [n] bits: a
    new object with the bits of [bv]. *)
Definition BitVector_copy (fresh : nat) (bv : BitVector) : BitVector :=
  mkBitVector fresh (bits bv).

(** [bv[u] = 1] *)
Definition set_bit (bv : BitVector) (u : nat) : BitVector :=
  mkBitVector (ident bv) (<[u := true]> (bits bv)).

(** [uncovered] *)
Definition uncovered (bv : BitVector) : list nat :=
  filter (λ i, bits bv !! i = Some false) (seq 0 (length (bits bv))).

Inductive hypothesis := Hyp {
  cost : Z;
  state : BitVector;
  predecessor : option hypothesis;
  vertex : option string
}.

(** The agenda: a dictionary from [BitVector] objects to hypotheses. *)
Abbreviation agenda_t := (list (BitVector * hypothesis)).

(** [agenda[s]], [None] when [s not in agenda]. *)
Fixpoint agenda_get (s : BitVector) (agenda : agenda_t) : option hypothesis :=
  match agenda with
  | [] => None
  | (k, h) :: rest => if decide (ident k = ident s) then Some h else agenda_get s rest
  end.

(** [agenda[s] = h] *)
Fixpoint agenda_set (s : BitVector) (h : hypothesis) (agenda : agenda_t) : agenda_t :=
  match agenda with
  | [] => [(s, h)]
  | (k, h') :: rest =>
      if decide (ident k = ident s) then (k, h) :: rest else (k, h') :: agenda_set s h rest
  end.

(** [del agenda[s]] *)
Definition agenda_del (s : BitVector) (agenda : agenda_t) : agenda_t :=
  filter (λ e, ident e.1 ≠ ident s) agenda.

(** [sorted(..., key=lambda h:h.cost)]: a stable sort. *)
Fixpoint insert_by_cost (h : hypothesis) (l : list hypothesis) : list hypothesis :=
  match l with
  | [] => [h]
  | h' :: l' => if cost h <=? cost h' then h :: l else h' :: insert_by_cost h l'
  end.

Definition sorted_by_cost (l : list hypothesis) : list hypothesis :=
  foldr insert_by_cost [] l.

(** The inner loop: the costs of the outgoing edges of [u_id] towards the
    vertices still uncovered. *)
Fixpoint sum_outgoing (di_edges : gmap edge Z) (vertices : list string)
    (u_id : string) (vs : list nat) (added_cost : Z) : option Z :=
  match vs with
  | [] => Some added_cost
  | v :: vs' =>
      v_id ← vertices !! v;
      sum_outgoing di_edges vertices u_id vs'
        (match di_edges !! (u_id, v_id) with
         | Some w => added_cost + w
         | None => added_cost
         end)
  end.

(** The loop [for u in uncovered(h.state)]; [fresh] is the identity the
    next new object gets. *)
Fixpoint expand (di_edges : gmap edge Z) (vertices : list string)
    (h : hypothesis) (us : list nat) (fresh : nat) (agenda : agenda_t)
  : option (nat * agenda_t) :=
  match us with
  | [] => Some (fresh, agenda)
  | u :: us' =>
      (* Append u to create new hypothesis *)
      let new_state := set_bit (BitVector_copy fresh (state h)) u in
      u_id ← vertices !! u;
      added_cost ← sum_outgoing di_edges vertices u_id (uncovered new_state) 0;
      let new_cost := cost h + added_cost in
      let new_h := Hyp new_cost new_state (Some h) (Some u_id) in
      expand di_edges vertices h us' (S fresh)
        (match agenda_get new_state agenda with
         | None => agenda_set new_state new_h agenda
         | Some old =>
             if new_cost <? cost old then agenda_set new_state new_h agenda
             else agenda
         end)
  end.

(** The ranking is read off the predecessor links; the loop
    [while h.vertex:] ends at [None] and at the empty string alike. *)
Fixpoint extract_ranking (h : hypothesis) : option (list string) :=
  match h with
  | Hyp _ _ pred (Some v) =>
      if decide (v = EmptyString) then Some []
      else
        match pred with
        | Some p => ranking ← extract_ranking p; Some (v :: ranking)
        | None => None
        end
  | Hyp _ _ _ None => Some []
  end.

(** The vertices along the predecessor links, first placed first. *)
Fixpoint placed (h : hypothesis) : list string :=
  match h with
  | Hyp _ _ (Some p) (Some v) => placed p ++ [v]
  | Hyp _ _ None (Some v) => [v]
  | Hyp _ _ _ None => []
  end.

(** An upper bound on the number of iterations of the main loop. *)
Definition search_fuel (n : nat) : nat := S (S n ^ n).

Section Solver.

(** [agenda.itervalues()]: the hypotheses of the agenda in the order the
    dictionary yields them, which Python leaves unspecified. *)
Variable itervalues : agenda_t → list hypothesis.

(** The main loop; [h] is the hypothesis last taken from the agenda. *)
Fixpoint search_loop (fuel : nat) (di_edges : gmap edge Z)
    (vertices : list string) (goal : BitVector) (fresh : nat)
    (agenda : agenda_t) (h : hypothesis) : option hypothesis :=
  match fuel with
  | O => None
  | S fuel' =>
      match agenda with
      | [] => Some h
      | _ =>
          match sorted_by_cost (itervalues agenda) with
          | [] => None
          | h :: _ =>
              if decide (bits (state h) = bits goal) then Some h
              else
                '(fresh', agenda') ← expand di_edges vertices h (uncovered (state h))
                                            fresh (agenda_del (state h) agenda);
                search_loop fuel' di_edges vertices goal fresh' agenda' h
          end
      end
  end.

(** [run_lopez_mfas_solver] up to the end of the main loop. *)
Definition search (di_edges : gmap edge Z) (vertices : list string)
  : option hypothesis :=
  goal ← BitVector_bitlist 0 (replicate (length vertices) true);
  let initial_state := BitVector_zero 1 (length vertices) in
  let initial_hypothesis := Hyp 0 initial_state None None in
  search_loop (search_fuel (length vertices)) di_edges vertices goal 2
              [(initial_state, initial_hypothesis)] initial_hypothesis.

Definition run_lopez_mfas_solver (di_edges : gmap edge Z)
    (vertices : list string) : option (list string) :=
  h ← search di_edges vertices;
  (* h is the goal. Extract the 1-best ranking. *)
  extract_ranking h.

End Solver.

(** The agenda yielding its values in the order of the list. *)
Definition in_order (agenda : agenda_t) : list hypothesis := agenda.*2.

(** ** Costs of orders *)

(** The weight of the edge from [u] to [v], 0 when there is none. *)
Definition weight (di_edges : gmap edge Z) (u v : string) : Z :=
  counter_get di_edges (u, v).

(** The weight of the edges of [ranking] that point backward: from a
    vertex to one listed before it. *)
Fixpoint backward_cost (di_edges : gmap edge Z) (ranking : list string) : Z :=
  match ranking with
  | [] => 0
  | v :: rest =>
      foldr (λ u acc, weight di_edges u v + acc) 0 rest + backward_cost di_edges rest
  end.

(** Two systems, judged equal four times, and A better than B once. *)
Definition scenario_2 : list answer_row :=
  [ mkRow "1" "A" "B" "="; mkRow "1" "A" "B" "="; mkRow "1" "A" "B" "=";
    mkRow "1" "A" "B" "="; mkRow "1" "A" "B" "<" ].

(** The rankings of the rows that parse. *)
Definition rankings_of (rows : list answer_row) : list Ranking :=
  omap (λ row, match ranking_of_row row with Ok r => Some r | Raise _ => None end) rows.

(** ** Reading the answer file and writing the ranking *)

(** What ends a run of [rank] early. *)
Inductive failure :=
| RowError (e : exn)
| UnboundLocalError
| SortError (src_id : Z).

(** The loop of [parse_answer_file] with its counter: [i] is the index of
    the row read last, unassigned while no row has been read. *)
Fixpoint read_loop (rows : list answer_row) (next : nat) (i : option nat)
    (src2rank : gmap Z (list Ranking)) : result (option nat * gmap Z (list Ranking)) :=
  match rows with
  | [] => Ok (i, src2rank)
  | row :: rows' =>
      ranking ← ranking_of_row row;
      read_loop rows' (S next) (Some next)
        (<[src_id ranking := default [] (src2rank !! src_id ranking) ++ [ranking]]> src2rank)
  end.

(** [parse_answer_file] with the line it writes to [sys.stderr] after the
    loop; [linesep] is [os.linesep]. *)
Definition parse_answer_file_logged (linesep : string) (rows : list answer_row)
  : failure + (gmap Z (list Ranking) * string) :=
  match read_loop rows 0 None ∅ with
  | Raise e => inl (RowError e)
  | Ok (None, _) => inl UnboundLocalError
  | Ok (Some i, src2rank) =>
      inr (src2rank, "Read: " +:+ pretty i +:+ " rows" +:+ linesep)
  end.

(** A call of [csv_out.writerow]: the field names, or the columns of a row. *)
Inductive csv_line :=
| HeaderLine (fields : list string)
| RowLine (row : RankRow).

(** [row._replace(src_id=src_id)] *)
Definition replace_src_id (row : RankRow) (src_id : Z) : RankRow :=
  mkRankRow (Some src_id) (sys_id row) (row_rank row).

(** The inner loop of [rank], over the rows of one segment. *)
Fixpoint write_rows (src_id : Z) (row_list : list RankRow) (write_header : bool)
    (stdout : list csv_line) : bool * list csv_line :=
  match row_list with
  | [] => (write_header, stdout)
  | row :: rest =>
      let stdout :=
        if write_header then stdout ++ [HeaderLine ["src_id"; "sys_id"; "rank"]]
        else stdout in
      (* sort_tgts does not set the src_id field *)
      write_rows src_id rest false (stdout ++ [RowLine (replace_src_id row src_id)])
  end.

(** The outer loop of [rank], over the segments; [src2rank] is a
    [defaultdict(list)]. *)
Fixpoint rank_loop
    (lopez_solver : gmap edge Z → list string → option (list string))
    (src2rank : gmap Z (list Ranking)) (src_ids : list Z) (write_header : bool)
    (stdout : list csv_line) : option failure * list csv_line :=
  match src_ids with
  | [] => (None, stdout)
  | src_id :: rest =>
      match sort_tgts lopez_solver (default [] (src2rank !! src_id)) with
      | None => (Some (SortError src_id), stdout)
      | Some row_list =>
          let '(write_header, stdout) := write_rows src_id row_list write_header stdout in
          rank_loop lopez_solver src2rank rest write_header stdout
      end
  end.

(** What a run of [rank] leaves: the lines written to the two streams and
    the failure that ended it, if one did. *)
Record run := mkRun {
  stderr : list string;
  stdout : list csv_line;
  raised : option failure
}.

(** [rank]; the segments are taken in the order of [sorted(src2rank.keys())]. *)
Definition rank_file
    (lopez_solver : gmap edge Z → list string → option (list string))
    (linesep : string) (rows : list answer_row) : run :=
  match parse_answer_file_logged linesep rows with
  | inl f => mkRun [] [] (Some f)
  | inr (src2rank, message) =>
      let '(f, stdout) :=
        rank_loop lopez_solver src2rank (merge_sort Z.le (map_to_list src2rank).*1)
                  true [] in
      mkRun [message] stdout f
  end.

(** * Vocabulary of the properties *)

(** The comparison symbols of the answer file. *)
Definition valid_symbols : list string := ["<"; ">"; "="].

(** What the loop body tests at index [i]. *)
Definition zero_edge (ranking : list string) (edges : gmap edge Z) (i : nat) : Prop :=
  ∃ prev_v v, ranking !! (i - 1)%nat = Some prev_v ∧ ranking !! i = Some v
              ∧ edges !! (prev_v, v) = Some 0.

(** Every stored count is positive. *)
Definition positive_counts (c : gmap edge Z) : Prop :=
  map_Forall (λ _ w, 1 ≤ w) c.

(** What the first loop of [sort_tgts] maintains. *)
Record tallies_ok (t : tallies) : Prop := {
  ok_di : positive_counts (di_edges t);
  ok_eq : positive_counts (eq_edges t);
  ok_total : ∀ k, counter_get (edge_counts t) k
                  = counter_get (di_edges t) k + counter_get (eq_edges t) k
}.

(** Equality is the majority judgment of the pair. *)
Definition majority (eq_edges edge_counts : gmap edge Z) (k : edge) : bool :=
  counter_get edge_counts k + counter_get edge_counts (k.2, k.1)
  <=? 2 * (counter_get eq_edges k + counter_get eq_edges (k.2, k.1)).

(** Some item of the equality loop deletes the edge [k]. *)
Definition resolved_away (eq_edges edge_counts : gmap edge Z)
    (items : list (edge * Z)) (k : edge) : bool :=
  existsb (λ item, majority eq_edges edge_counts item.1
                   && bool_decide (k = item.1 ∨ k = (item.1.2, item.1.1))) items.

(** The net margin of an edge over its reverse, when it has one. *)
Definition net_weight (di : gmap edge Z) (k : edge) : option Z :=
  match di !! k with
  | None => None
  | Some x =>
      match di !! (k.2, k.1) with
      | None => Some x
      | Some y => if y <? x then Some (x - y) else None
      end
  end.

(** No stored weight is negative. *)
Definition nonneg_counts (c : gmap edge Z) : Prop :=
  map_Forall (λ _ w, 0 ≤ w) c.

(** An edge map is reduced when every edge it stores has a positive
    weight and its reverse is not stored. *)
Definition reduced (E : gmap edge Z) : Prop :=
  map_Forall (λ k w, 0 < w ∧ E !! (k.2, k.1) = None) E.

#[global] Instance reduced_dec (E : gmap edge Z) : Decision (reduced E).
Proof. unfold reduced. apply _. Defined.

(** The positions of a list of bits that are not set. *)
Definition unset (s : list bool) : list nat :=
  filter (λ i, s !! i = Some false) (seq 0 (length s)).

(** The number of bits that are not set. *)
Fixpoint zeros (s : list bool) : nat :=
  match s with
  | [] => 0
  | b :: s' => (if b then 0 else 1) + zeros s'
  end.

(** The bits after the vertices of index [p] are placed. *)
Definition state_of (n : nat) (p : list nat) : list bool :=
  foldl (λ s u, <[u := true]> s) (replicate n false) p.

(** [vertices[u]] *)
Definition label (V : list string) (u : nat) : string :=
  default EmptyString (V !! u).

(** The weight of the edges from [u_id] to the vertices of index [vs]. *)
Definition outgoing (E : gmap edge Z) (V : list string) (u_id : string)
    (vs : list nat) : Z :=
  foldr (λ v acc, weight E u_id (label V v) + acc) 0 vs.

(** The cost added by placing [u] on the bits [s]. *)
Definition step_cost (E : gmap edge Z) (V : list string) (s : list bool) (u : nat) : Z :=
  outgoing E V (label V u) (unset (<[u := true]> s)).

(** The cost of placing the vertices of index [p], in this order, from [s]. *)
Fixpoint cost_from (E : gmap edge Z) (V : list string) (s : list bool)
    (p : list nat) : Z :=
  match p with
  | [] => 0
  | u :: p' => step_cost E V s u + cost_from E V (<[u := true]> s) p'
  end.

(** The same from the initial state. *)
Definition path_cost (E : gmap edge Z) (V : list string) (p : list nat) : Z :=
  cost_from E V (replicate (length V) false) p.

(** The weight of the edges from a vertex to one listed after it. *)
Fixpoint forward_cost (E : gmap edge Z) (L : list string) : Z :=
  match L with
  | [] => 0
  | l :: L' => foldr (λ m acc, weight E l m + acc) 0 L' + forward_cost E L'
  end.

(** The hypothesis made by placing [u] after [h], its state the object of
    identity [i]. *)
Definition successor (E : gmap edge Z) (V : list string) (h : hypothesis) (u : nat)
    (i : nat) : hypothesis :=
  Hyp (cost h + step_cost E V (bits (state h)) u)
      (mkBitVector i (<[u := true]> (bits (state h))))
      (Some h) (Some (label V u)).

(** The hypotheses the search builds, with the indices placed so far. *)
Inductive built (E : gmap edge Z) (V : list string) : list nat → hypothesis → Prop :=
| built_init i :
    built E V [] (Hyp 0 (mkBitVector i (replicate (length V) false)) None None)
| built_step p h u i :
    built E V p h →
    bits (state h) !! u = Some false →
    built E V (p ++ [u]) (successor E V h u i).

(** The entries that expanding [h] adds for the positions [us], the first
    with the identity [fresh]. *)
Fixpoint successors (E : gmap edge Z) (V : list string) (h : hypothesis)
    (us : list nat) (fresh : nat) : agenda_t :=
  match us with
  | [] => []
  | u :: us' =>
      (state (successor E V h u fresh), successor E V h u fresh)
      :: successors E V h us' (S fresh)
  end.

(** The termination measure: a state with [r] uncovered bits weighs
    [(n+1)^r], more than its at most [n] successors together. *)
Definition key_weight (n : nat) (s : list bool) : nat := (S n ^ zeros s)%nat.

(** The sum of the weights of the keys of the agenda. *)
Definition agenda_measure (n : nat) (agenda : agenda_t) : nat :=
  sum_list ((λ e, key_weight n (bits e.1)) <$> agenda).

(** The identities of the keys of the agenda. *)
Definition idents (a : agenda_t) : list nat := (λ e, ident e.1) <$> a.

(** The keys are distinct objects made before [fresh]; every entry is
    keyed by its state and was built by the search. *)
Record agenda_ok (E : gmap edge Z) (V : list string) (fresh : nat) (a : agenda_t)
  : Prop := {
  ok_distinct : NoDup (idents a);
  ok_older : Forall (λ i, (i < fresh)%nat) (idents a);
  ok_built : ∀ s h, (s, h) ∈ a → s = state h ∧ ∃ p, built E V p h
}.

(** Every complete order has a prefix whose hypothesis is on the agenda. *)
Definition frontier (E : gmap edge Z) (V : list string) (a : agenda_t) : Prop :=
  ∀ q, q ≡ₚ seq 0 (length V) →
    ∃ k h, (state h, h) ∈ a ∧ built E V (take k q) h.

(** Two edge maps that agree between the vertices of [V]. *)
Definition agree_on (V : list string) (E E' : gmap edge Z) : Prop :=
  ∀ a b, a ∈ V → b ∈ V → E !! (a, b) = E' !! (a, b).

(** The equality count stored for the ordered pair [(a, b)]. *)
Definition ties (ranking_list : list Ranking) (a b : string) : Z :=
  counter_get (eq_edges (aggregate ranking_list)) (a, b).

(** The number of judgments in which [a] is better than [b]. *)
Definition wins (ranking_list : list Ranking) (a b : string) : Z :=
  counter_get (di_edges (aggregate ranking_list)) (a, b).

(** One edge: A is better than B. *)
Definition edges_AB : gmap edge Z := {[ ("A", "B") := 1 ]}.

(** A over B and B over C three times each, C over A once. *)
Definition edges_cycle : gmap edge Z :=
  {[ ("A", "B") := 3; ("B", "C") := 3; ("C", "A") := 1 ]}.

(** One edge, from the vertex with the empty identifier to B. *)
Definition edges_empty_identifier : gmap edge Z := {[ (EmptyString, "B") := 1 ]}.

(** The goal hypothesis the search stops at for [edges_AB] over A and B
    with the agenda taken in order: B is placed first, then A. *)
Definition goal_AB : hypothesis :=
  Hyp 0 (mkBitVector 4 [true; true])
      (Some (Hyp 0 (mkBitVector 3 [false; true])
                 (Some (Hyp 0 (mkBitVector 1 [false; false]) None None))
                 (Some "B")))
      (Some "A").

(** The rankings the rows of a file stand for, in file order. *)
Definition rankings_read (rows : list answer_row) (rankings : list Ranking) : Prop :=
  Forall2 (λ row ranking, ranking_of_row row = Ok ranking) rows rankings.

(** The rankings of one segment, in the order given. *)
Definition segment (rankings : list Ranking) (k : Z) : list Ranking :=
  filter (λ r, src_id r = k) rankings.

(** The field names [rank] writes first. *)
Definition header : csv_line := HeaderLine ["src_id"; "sys_id"; "rank"].

(** The rows written, in order. *)
Definition written_rows (lines : list csv_line) : list RankRow :=
  omap (λ line, match line with
                | HeaderLine _ => None
                | RowLine row => Some row
                end) lines.

(** The lines that writing the rows [data] leaves: the field names once,
    then the rows; nothing when there is no row. *)
Definition render (data : list RankRow) : list csv_line :=
  match data with
  | [] => []
  | _ => header :: (RowLine <$> data)
  end.

(** The rows [rank] writes for the segment [k]. *)
Definition segment_rows
    (lopez_solver : gmap edge Z → list string → option (list string))
    (src2rank : gmap Z (list Ranking)) (k : Z) : list RankRow :=
  (λ row, replace_src_id row k)
  <$> default [] (sort_tgts lopez_solver (default [] (src2rank !! k))).

(** A over B and B over C three times each, C over A once, in segment 4;
    one judgment in segment 2. *)
Definition two_segments : list answer_row :=
  [ mkRow "4" "A" "B" "<"; mkRow "4" "A" "B" "<"; mkRow "4" "B" "A" ">";
    mkRow "2" "X" "Y" ">";
    mkRow "4" "B" "C" "<"; mkRow "4" "B" "C" "<"; mkRow "4" "B" "C" "<";
    mkRow "4" "C" "A" "<" ].

(** The dictionary [parse_answer_file] builds from [two_segments]. *)
Definition two_segments_src2rank : gmap Z (list Ranking) :=
  match parse_rows two_segments ∅ with
  | Ok src2rank => src2rank
  | Raise _ => ∅
  end.

(** A file whose second row has no valid symbol. *)
Definition malformed_file : list answer_row :=
  [ mkRow "1" "A" "B" "<"; mkRow "2" "A" "B" "?" ].

(** * Properties *)

(** ** Parsing *)

Lemma rank_to_int_raise (rank : string) :
  is_raise (rank_to_int rank) ↔ rank ∉ valid_symbols.
Proof.
  unfold rank_to_int, valid_symbols.
  destruct (String.eqb_spec rank "<") as [->|H1]; [simpl; set_solver|].
  destruct (String.eqb_spec rank ">") as [->|H2]; [simpl; set_solver|].
  destruct (String.eqb_spec rank "=") as [->|H3]; [simpl; set_solver|].
  simpl. split; [intros _|done].
  rewrite !elem_of_cons, elem_of_nil. tauto.
Qed.

Lemma rank_to_int_ok (rank : string) (r : Z) :
  rank_to_int rank = Ok r → rank ∈ valid_symbols ∧ r ∈ [-1; 1; 0].
Proof.
  unfold rank_to_int, valid_symbols.
  destruct (String.eqb_spec rank "<") as [->|H1]; [intros [= <-]; set_solver|].
  destruct (String.eqb_spec rank ">") as [->|H2]; [intros [= <-]; set_solver|].
  destruct (String.eqb_spec rank "=") as [->|H3]; [intros [= <-]; set_solver|].
  done.
Qed.

Lemma Ranking_init_raise (src_id sys1_id sys2_id rank : string) :
  is_raise (Ranking_init src_id sys1_id sys2_id rank)
  ↔ is_raise (py_int src_id) ∨ rank ∉ valid_symbols.
Proof.
  rewrite <- rank_to_int_raise. unfold Ranking_init.
  destruct (py_int src_id) as [src|e]; simpl; [|tauto].
  destruct (rank_to_int rank) as [r|e]; simpl; [|tauto].
  destruct (r <? 0); simpl; tauto.
Qed.

Lemma parse_rows_raise (rows : list answer_row) (src2rank : gmap Z (list Ranking)) :
  is_raise (parse_rows rows src2rank)
  ↔ Exists (λ row, is_raise (ranking_of_row row)) rows.
Proof.
  revert src2rank. induction rows as [|row rows IH]; intros src2rank; simpl.
  - rewrite Exists_nil. done.
  - rewrite Exists_cons. destruct (ranking_of_row row) as [ranking|e]; simpl.
    + rewrite IH. tauto.
    + tauto.
Qed.

Lemma read_loop_spec (rows : list answer_row) (next : nat) (i : option nat)
    (m : gmap Z (list Ranking)) :
  match read_loop rows next i m with
  | Raise e => parse_rows rows m = Raise e
  | Ok (i', m') =>
      parse_rows rows m = Ok m'
      ∧ i' = match rows with [] => i | _ => Some (next + length rows - 1)%nat end
  end.
Proof.
  revert next i m. induction rows as [|row rows IH]; intros next i m; simpl; [done|].
  destruct (ranking_of_row row) as [ranking|e]; simpl; [|done].
  specialize (IH (S next) (Some next)
                 (<[src_id ranking := default [] (m !! src_id ranking) ++ [ranking]]> m)).
  destruct (read_loop rows _ _ _) as [[i' m']|e]; [|done].
  destruct IH as [-> ->]. split; [done|].
  destruct rows; simpl; f_equal; lia.
Qed.

(** ** Ties and rows *)

Lemma mark_tie_length ranking edges ties i :
  length (mark_tie ranking edges ties i) = length ties.
Proof.
  unfold mark_tie.
  repeat case_match; try done; by rewrite length_insert.
Qed.

Lemma foldl_mark_tie_length ranking edges (idx : list nat) ties :
  length (foldl (mark_tie ranking edges) ties idx) = length ties.
Proof.
  revert ties. induction idx as [|i idx IH]; intros ties; simpl; [done|].
  by rewrite IH, mark_tie_length.
Qed.

Lemma mark_ties_length ranking edges :
  length (mark_ties ranking edges) = length ranking.
Proof. unfold mark_ties. by rewrite foldl_mark_tie_length, length_replicate. Qed.

Lemma mark_tie_lookup ranking edges ties i j :
  mark_tie ranking edges ties i !! j = Some true
  ↔ ties !! j = Some true ∨ (j = i ∧ (j < length ties)%nat ∧ zero_edge ranking edges i).
Proof.
  unfold mark_tie, zero_edge.
  destruct (ranking !! (i - 1)%nat) as [prev_v|] eqn:Hp;
    [|split; [tauto|intros [?|(_ & _ & ? & ? & ? & _)]; [done|congruence]]].
  destruct (ranking !! i) as [v|] eqn:Hv;
    [|split; [tauto|intros [?|(_ & _ & ? & ? & _ & ? & _)]; [done|congruence]]].
  destruct (edges !! (prev_v, v)) as [w|] eqn:Hw;
    [|split; [tauto|intros [?|(_ & _ & ? & ? & ? & ? & ?)]; [done|congruence]]].
  destruct (Z.eqb_spec w 0) as [->|Hne].
  - destruct (decide (j = i)) as [->|Hji].
    + destruct (decide (i < length ties)%nat) as [Hlt|Hge].
      * rewrite list_lookup_insert_eq by done. split; [|done].
        intros _. right. eauto 10.
      * rewrite list_insert_ge by lia. split; [tauto|]. intros [?|(_ & ? & _)]; [done|lia].
    + rewrite list_lookup_insert_ne by done. split; [tauto|]. intros [?|(? & _)]; done.
  - split; [tauto|]. intros [?|(_ & _ & ? & ? & ? & ? & ?)]; [done|]. congruence.
Qed.

Lemma foldl_mark_tie_lookup ranking edges (idx : list nat) ties j :
  foldl (mark_tie ranking edges) ties idx !! j = Some true
  ↔ ties !! j = Some true
    ∨ (j ∈ idx ∧ (j < length ties)%nat ∧ zero_edge ranking edges j).
Proof.
  revert ties. induction idx as [|i idx IH]; intros ties; simpl.
  - rewrite elem_of_nil. tauto.
  - rewrite IH, mark_tie_lookup, mark_tie_length, elem_of_cons.
    split.
    + intros [[?|(-> & ? & ?)]|(? & ? & ?)]; eauto 10.
    + intros [?|([->|?] & ? & ?)]; eauto 10.
Qed.

Lemma mark_ties_lookup ranking edges (i : nat) :
  mark_ties ranking edges !! i = Some true
  ↔ (1 ≤ i)%nat ∧ zero_edge ranking edges i.
Proof.
  unfold mark_ties. rewrite foldl_mark_tie_lookup, length_replicate, elem_of_seq.
  split.
  - intros [H|(? & ? & ?)]; [|split; [lia|done]].
    apply lookup_replicate in H as [? _]. done.
  - intros [Hi Hz]. right. destruct Hz as (prev_v & v & Hp & Hv & Hw).
    apply lookup_lt_Some in Hv as Hlt.
    split; [lia|]. split; [done|]. exists prev_v, v. done.
Qed.

Lemma mark_ties_first ranking edges :
  mark_ties ranking edges !! 0%nat ≠ Some true.
Proof. rewrite mark_ties_lookup. lia. Qed.

Lemma make_rows_from_ok (ties : list bool) (id_list : list string) (i : nat) (last_rank : Z) :
  (i + length id_list ≤ length ties)%nat →
  ties !! i = Some false ∨ 1 ≤ last_rank →
  ∃ rows, make_rows_from i last_rank id_list ties = Some rows
          ∧ length rows = length id_list
          ∧ Forall (λ r, 1 ≤ row_rank r) rows
          ∧ (ties !! i = Some false →
             head (row_rank <$> rows) = (λ _, Z.of_nat i + 1) <$> head id_list).
Proof.
  revert i last_rank. induction id_list as [|sys_id rest IH]; intros i last_rank Hlen Hpre.
  - exists []. simpl. auto.
  - simpl in Hlen. simpl.
    destruct (ties !! i) as [tie|] eqn:Hi; [|apply lookup_ge_None in Hi; lia].
    simpl.
    set (rank := if tie then last_rank else Z.of_nat i + 1).
    assert (Hrank : 1 ≤ rank).
    { subst rank. destruct tie; [|lia]. destruct Hpre as [?|?]; [done|lia]. }
    destruct (IH (S i) rank) as (rows & -> & Hl & Hall & _); [lia|by right|].
    simpl. eexists. split; [done|]. simpl. split; [by rewrite Hl|].
    split; [by constructor|].
    intros [= ->]. done.
Qed.

(** ** Aggregation *)

Lemma counter_get_incr (c : gmap edge Z) (k k' : edge) :
  counter_get (counter_incr c k) k'
  = if decide (k = k') then counter_get c k + 1 else counter_get c k'.
Proof.
  unfold counter_incr, counter_get at 1. rewrite lookup_insert.
  destruct (decide (k = k')); done.
Qed.

Lemma positive_counts_get c k : positive_counts c → 0 ≤ counter_get c k.
Proof.
  intros Hc. unfold counter_get. destruct (c !! k) as [w|] eqn:E; simpl; [|lia].
  apply Hc in E. lia.
Qed.

Lemma positive_counts_incr c k : positive_counts c → positive_counts (counter_incr c k).
Proof.
  intros Hc k' w. unfold counter_incr. rewrite lookup_insert.
  destruct (decide (k = k')) as [->|Hne].
  - intros [= <-]. pose proof (positive_counts_get c k' Hc). lia.
  - apply Hc.
Qed.

Lemma tally_ok t ranking : tallies_ok t → tallies_ok (tally t ranking).
Proof.
  intros [Hdi Heq Htot]. unfold tally.
  destruct (rank ranking =? 0); constructor; simpl;
    auto using positive_counts_incr; intros k;
    rewrite !counter_get_incr; destruct (decide _) as [<-|]; rewrite Htot; lia.
Qed.

Lemma foldl_tally_ok ranking_list t :
  tallies_ok t → tallies_ok (foldl tally t ranking_list).
Proof.
  revert t. induction ranking_list as [|r rl IH]; intros t Ht; simpl; [done|].
  apply IH, tally_ok, Ht.
Qed.

Lemma aggregate_ok ranking_list : tallies_ok (aggregate ranking_list).
Proof.
  apply foldl_tally_ok. constructor; simpl; [intros ? ?| intros ? ?|intros ?];
    rewrite ?lookup_empty; done.
Qed.

(** ** The equality special case *)

Lemma resolve_fold (eq_edges edge_counts : gmap edge Z) (items : list (edge * Z)) (di : gmap edge Z) :
  (∀ k n, (k, n) ∈ items →
     eq_edges !! k = Some n
     ∧ 0 < counter_get edge_counts k + counter_get edge_counts (k.2, k.1)) →
  ∃ di', foldl (resolve_step eq_edges edge_counts) (Some di) items = Some di'
         ∧ ∀ k, di' !! k
                = if resolved_away eq_edges edge_counts items k then None else di !! k.
Proof.
  revert di. induction items as [|[[a b] n] items IH]; intros di Hitems.
  - exists di. done.
  - destruct (Hitems (a, b) n) as [Hn Htot]; [left|]. simpl in Htot.
    assert (Hget : counter_get eq_edges (a, b) = n) by (unfold counter_get; by rewrite Hn).
    assert (Hstep : resolve_step eq_edges edge_counts (Some di) (a, b, n)
                    = Some (if majority eq_edges edge_counts (a, b)
                            then delete (b, a) (delete (a, b) di) else di)).
    { unfold resolve_step, majority. simpl. rewrite Hget.
      destruct (Z.eqb_spec (counter_get edge_counts (a, b)
                            + counter_get edge_counts (b, a)) 0); [lia|].
      destruct (Z.ltb_spec 0 (counter_get edge_counts (a, b)
                              + counter_get edge_counts (b, a))); [|lia].
      destruct (_ <=? _); done. }
    destruct (IH (if majority eq_edges edge_counts (a, b)
                  then delete (b, a) (delete (a, b) di) else di))
      as (di' & Hfold & Hlook).
    { intros k m Hin. apply Hitems. by right. }
    exists di'. split.
    + cbn [foldl]. rewrite Hstep. exact Hfold.
    + intros k. rewrite Hlook. simpl.
      destruct (resolved_away eq_edges edge_counts items k); [by rewrite orb_true_r|].
      rewrite orb_false_r.
      destruct (majority eq_edges edge_counts (a, b)); simpl; [|done].
      case_bool_decide as Hk.
      * destruct (decide (k = (b, a))) as [->|Hne]; [by rewrite lookup_delete_eq|].
        rewrite lookup_delete_ne by done.
        destruct Hk as [-> | ->]; [by rewrite lookup_delete_eq|done].
      * rewrite !lookup_delete_ne by (intros <-; tauto). done.
Qed.

Lemma majority_swap (eq_edges edge_counts : gmap edge Z) (a b : string) :
  majority eq_edges edge_counts (b, a) = majority eq_edges edge_counts (a, b).
Proof. unfold majority. simpl. f_equal; lia. Qed.

Lemma resolved_away_spec (eq_edges edge_counts : gmap edge Z) (a b : string) :
  resolved_away eq_edges edge_counts (map_to_list eq_edges) (a, b) = true
  ↔ majority eq_edges edge_counts (a, b) = true
    ∧ (is_Some (eq_edges !! (a, b)) ∨ is_Some (eq_edges !! (b, a))).
Proof.
  unfold resolved_away. rewrite existsb_exists. split.
  - intros ([[x y] n] & Hin & Hc). apply list_elem_of_In, elem_of_map_to_list in Hin.
    apply andb_true_iff in Hc as [Hm Hk]. apply bool_decide_eq_true in Hk.
    simpl in *. destruct Hk as [[= -> ->]|[= -> ->]].
    + split; [done|]. left. eauto.
    + rewrite majority_swap in Hm. split; [done|]. right. eauto.
  - intros [Hm [[n Hn]|[n Hn]]].
    + exists ((a, b), n). split; [by apply list_elem_of_In, elem_of_map_to_list|].
      simpl. rewrite Hm. simpl. apply bool_decide_eq_true. by left.
    + exists ((b, a), n). split; [by apply list_elem_of_In, elem_of_map_to_list|].
      simpl. rewrite majority_swap, Hm. simpl. apply bool_decide_eq_true. by right.
Qed.

Lemma resolve_equality_ok (t : tallies) :
  tallies_ok t →
  ∃ di, resolve_equality t = Some di
        ∧ ∀ k, di !! k
               = if resolved_away (eq_edges t) (edge_counts t) (map_to_list (eq_edges t)) k
                 then None else di_edges t !! k.
Proof.
  intros [Hdi Heq Htot]. apply resolve_fold.
  intros k n Hin. apply elem_of_map_to_list in Hin. split; [done|].
  rewrite !Htot.
  pose proof (positive_counts_get _ k Hdi).
  pose proof (positive_counts_get _ (k.2, k.1) Hdi).
  pose proof (positive_counts_get _ (k.2, k.1) Heq).
  pose proof (Heq _ _ Hin) as Hn. simpl in Hn.
  unfold counter_get at 2. rewrite Hin. simpl. lia.
Qed.

Lemma resolve_equality_positive (t : tallies) (di : gmap edge Z) :
  tallies_ok t → resolve_equality t = Some di → positive_counts di.
Proof.
  intros Ht Hr. destruct (resolve_equality_ok t Ht) as (di' & Hr' & Hlook).
  assert (di' = di) as -> by congruence.
  intros k w. rewrite Hlook. destruct (resolved_away _ _ _ _); [done|]. apply Ht.
Qed.

(** ** The tournament filter *)

Lemma reduce_step_lookup (di t : gmap edge Z) (seen : list edge) (a b : string) :
  nonneg_counts di →
  is_Some (di !! (a, b)) →
  (∀ k, t !! k = if decide (k ∈ seen ∨ (k.2, k.1) ∈ seen) then net_weight di k else None) →
  ∃ t', reduce_step di (Some t) (a, b) = Some t'
        ∧ ∀ k, t' !! k = if decide (k ∈ seen ++ [(a, b)] ∨ (k.2, k.1) ∈ seen ++ [(a, b)])
                         then net_weight di k else None.
Proof.
  intros Hpos [x Hx] Ht.
  assert (Hcase : ∀ k : edge,
            (k ∈ seen ++ [(a, b)] ∨ (k.2, k.1) ∈ seen ++ [(a, b)])
            ↔ (k ∈ seen ∨ (k.2, k.1) ∈ seen) ∨ k = (a, b) ∨ k = (b, a)).
  { intros [u v]. rewrite !elem_of_app, !list_elem_of_singleton. simpl.
    split; [intros [[?|?]|[?|?]]|intros [[?|?]|[?|?]]]; simplify_eq; auto. }
  assert (Hab : net_weight di (a, b)
                = match di !! (b, a) with
                  | None => Some x
                  | Some y => if y <? x then Some (x - y) else None
                  end).
  { unfold net_weight. simpl. by rewrite Hx. }
  assert (Hba : net_weight di (b, a)
                = match di !! (b, a) with
                  | None => None
                  | Some y => if x <? y then Some (y - x) else None
                  end).
  { unfold net_weight. simpl. rewrite Hx. by destruct (di !! (b, a)). }
  assert (Hother : ∀ k (t' : gmap edge Z),
            k ≠ (a, b) → k ≠ (b, a) → t' !! k = t !! k →
            t' !! k = if decide (k ∈ seen ++ [(a, b)] ∨ (k.2, k.1) ∈ seen ++ [(a, b)])
                      then net_weight di k else None).
  { intros k t' H1 H2 ->. rewrite Ht.
    destruct (decide (k ∈ seen ∨ _)) as [Hin|Hnin];
      destruct (decide (k ∈ seen ++ _ ∨ _)) as [Hin'|Hnin']; try done;
      rewrite Hcase in *; tauto. }
  assert (Hnone : ∀ k, net_weight di k = None → t !! k = None).
  { intros k Hk. rewrite Ht. by destruct (decide _). }
  assert (Hhit : ∀ k (t' : gmap edge Z),
            k = (a, b) ∨ k = (b, a) → t' !! k = net_weight di k →
            t' !! k = if decide (k ∈ seen ++ [(a, b)] ∨ (k.2, k.1) ∈ seen ++ [(a, b)])
                      then net_weight di k else None).
  { intros k t' Hk ->. destruct (decide _) as [|Hn]; [done|]. rewrite Hcase in Hn. tauto. }
  unfold reduce_step. simpl. unfold counter_get. rewrite Hx. simpl.
  pose proof (Hpos _ _ Hx) as Hx0. simpl in Hx0.
  destruct (Z.ltb_spec x 0); [lia|].
  destruct (di !! (b, a)) as [y|] eqn:Hy.
  - destruct (Z.ltb_spec 0 (x - y)); [|destruct (Z.ltb_spec (x - y) 0)].
    + eexists. split; [done|]. intros k.
      destruct (decide (k = (a, b))) as [->|Hk1].
      { apply Hhit; [by left|]. rewrite lookup_insert_eq, Hab.
        destruct (Z.ltb_spec y x); [done|lia]. }
      destruct (decide (k = (b, a))) as [->|Hk2].
      { apply Hhit; [by right|]. rewrite lookup_insert_ne by done.
        rewrite Hba. destruct (Z.ltb_spec x y); [lia|].
        apply Hnone. rewrite Hba. destruct (Z.ltb_spec x y); [lia|done]. }
      apply Hother; [done..|]. by rewrite lookup_insert_ne.
    + eexists. split; [done|]. intros k.
      destruct (decide (k = (b, a))) as [->|Hk2].
      { apply Hhit; [by right|]. rewrite lookup_insert_eq, Hba.
        destruct (Z.ltb_spec x y); [f_equal; lia|lia]. }
      destruct (decide (k = (a, b))) as [->|Hk1].
      { apply Hhit; [by left|]. rewrite lookup_insert_ne by done.
        rewrite Hab. destruct (Z.ltb_spec y x); [lia|].
        apply Hnone. rewrite Hab. destruct (Z.ltb_spec y x); [lia|done]. }
      apply Hother; [done..|]. by rewrite lookup_insert_ne.
    + eexists. split; [done|]. intros k.
      destruct (decide (k = (a, b))) as [->|Hk1].
      { apply Hhit; [by left|]. rewrite Hab. destruct (Z.ltb_spec y x); [lia|].
        apply Hnone. rewrite Hab. destruct (Z.ltb_spec y x); [lia|done]. }
      destruct (decide (k = (b, a))) as [->|Hk2].
      { apply Hhit; [by right|]. rewrite Hba. destruct (Z.ltb_spec x y); [lia|].
        apply Hnone. rewrite Hba. destruct (Z.ltb_spec x y); [lia|done]. }
      by apply Hother.
  - eexists. split; [done|]. intros k.
    destruct (decide (k = (a, b))) as [->|Hk1].
    { apply Hhit; [by left|]. by rewrite lookup_insert_eq, Hab. }
    destruct (decide (k = (b, a))) as [->|Hk2].
    { apply Hhit; [by right|]. rewrite lookup_insert_ne by done.
      rewrite Hba. apply Hnone. by rewrite Hba. }
    apply Hother; [done..|]. by rewrite lookup_insert_ne.
Qed.

Lemma reduce_fold (di : gmap edge Z) (keys : list edge) :
  nonneg_counts di →
  (∀ k, k ∈ keys → is_Some (di !! k)) →
  ∃ t, foldl (reduce_step di) (Some ∅) keys = Some t
       ∧ ∀ k, t !! k = if decide (k ∈ keys ∨ (k.2, k.1) ∈ keys)
                       then net_weight di k else None.
Proof.
  intros Hpos. induction keys as [|[a b] keys IH] using rev_ind; intros Hkeys.
  - exists ∅. split; [done|]. intros k. rewrite lookup_empty.
    destruct (decide _) as [[H|H]|]; [by apply elem_of_nil in H..|done].
  - destruct IH as (t & Hfold & Ht).
    { intros k Hk. apply Hkeys, elem_of_app. by left. }
    rewrite foldl_app. cbn [foldl]. rewrite Hfold.
    apply reduce_step_lookup; [done| |done].
    apply Hkeys, elem_of_app. right. by apply list_elem_of_singleton.
Qed.

Lemma reduce_tournament_ok (di : gmap edge Z) :
  nonneg_counts di →
  ∃ t, reduce_tournament di = Some t ∧ ∀ k, t !! k = net_weight di k.
Proof.
  intros Hpos.
  assert (Hkeys : ∀ k, k ∈ (map_to_list di).*1 ↔ is_Some (di !! k)).
  { intros k. rewrite list_elem_of_fmap. split.
    - intros ([k' w] & -> & Hin). apply elem_of_map_to_list in Hin. simpl. eauto.
    - intros [w Hw]. exists (k, w). split; [done|]. by apply elem_of_map_to_list. }
  destruct (reduce_fold di (map_to_list di).*1 Hpos) as (t & Hfold & Ht).
  { intros k. apply Hkeys. }
  exists t. split; [done|]. intros k. rewrite Ht.
  destruct (decide _) as [|Hn]; [done|].
  unfold net_weight. destruct (di !! k) eqn:E; [|done].
  exfalso. apply Hn. left. apply Hkeys. eauto.
Qed.

Lemma positive_nonneg (c : gmap edge Z) : positive_counts c → nonneg_counts c.
Proof. intros Hc k w Hw. apply Hc in Hw. lia. Qed.

Lemma net_weight_reduced (E : gmap edge Z) (k : edge) :
  reduced E → net_weight E k = E !! k.
Proof.
  intros HE. unfold net_weight. destruct (E !! k) as [x|] eqn:Hx; [|done].
  destruct (HE _ _ Hx) as [_ ->]. done.
Qed.

(** The edge maps at the stages of [sort_tgts]. *)
Lemma pipeline_ok (ranking_list : list Ranking) :
  ∃ di t, resolve_equality (aggregate ranking_list) = Some di
          ∧ reduce_tournament di = Some t
          ∧ positive_counts di
          ∧ (∀ k, di !! k
                  = if resolved_away (eq_edges (aggregate ranking_list))
                                     (edge_counts (aggregate ranking_list))
                                     (map_to_list (eq_edges (aggregate ranking_list))) k
                    then None else di_edges (aggregate ranking_list) !! k)
          ∧ ∀ k, t !! k = net_weight di k.
Proof.
  pose proof (aggregate_ok ranking_list) as Hok.
  destruct (resolve_equality_ok _ Hok) as (di & Hdi & Hlook).
  pose proof (resolve_equality_positive _ _ Hok Hdi) as Hpos.
  destruct (reduce_tournament_ok di (positive_nonneg _ Hpos)) as (t & Ht & Htl).
  exists di, t. done.
Qed.

(** ** The search: states, paths and their costs *)

Lemma filter_all {A} (P : A → Prop) `{!∀ x, Decision (P x)} (l : list A) :
  Forall P l → filter P l = l.
Proof.
  induction 1 as [|x l Hx _ IH]; [done|].
  rewrite filter_cons_True by done. by rewrite IH.
Qed.

Lemma zeros_insert (s : list bool) (u : nat) :
  s !! u = Some false → zeros s = S (zeros (<[u := true]> s)).
Proof.
  revert u. induction s as [|b s IH]; intros [|u]; simpl; try done.
  - by intros [= ->].
  - intros Hu. rewrite (IH u Hu). lia.
Qed.

Lemma zeros_none (s : list bool) : zeros s = 0%nat → s = replicate (length s) true.
Proof.
  induction s as [|[] s IH]; simpl; [done| |lia].
  intros Hz. by rewrite <- IH.
Qed.

Lemma zeros_replicate_false (n : nat) : zeros (replicate n false) = n.
Proof. induction n; simpl; [done|]. by rewrite IHn. Qed.

Lemma uncovered_unset (bv : BitVector) : uncovered bv = unset (bits bv).
Proof. done. Qed.

Lemma elem_of_unset (s : list bool) (u : nat) :
  u ∈ unset s ↔ s !! u = Some false.
Proof.
  unfold unset. rewrite list_elem_of_filter, elem_of_seq.
  split; [tauto|]. intros Hu. split; [done|]. apply lookup_lt_Some in Hu. lia.
Qed.

Lemma unset_NoDup (s : list bool) : NoDup (unset s).
Proof. unfold unset. apply NoDup_filter, NoDup_seq. Qed.

Lemma unset_length (s : list bool) : (length (unset s) ≤ length s)%nat.
Proof.
  unfold unset. etrans; [apply length_filter|]. by rewrite length_seq.
Qed.

Lemma unset_replicate_false (n : nat) : unset (replicate n false) = seq 0 n.
Proof.
  unfold unset. rewrite length_replicate.
  apply filter_all, Forall_forall. intros i Hi. apply elem_of_seq in Hi.
  apply lookup_replicate. split; [done|lia].
Qed.

Lemma unset_insert (s : list bool) (u : nat) :
  unset (<[u := true]> s) = filter (λ i, i ≠ u) (unset s).
Proof.
  unfold unset. rewrite length_insert, list_filter_filter.
  apply list_filter_iff. intros i. destruct (decide (i = u)) as [->|Hne].
  - split; [|tauto]. intros Hi. exfalso.
    destruct (decide (u < length s)%nat).
    + rewrite list_lookup_insert_eq in Hi by done. done.
    + rewrite list_insert_ge in Hi by lia. apply lookup_lt_Some in Hi. lia.
  - rewrite list_lookup_insert_ne by done. tauto.
Qed.

Lemma unset_insert_perm (s : list bool) (u : nat) (rest : list nat) :
  unset s ≡ₚ u :: rest → unset (<[u := true]> s) ≡ₚ rest.
Proof.
  intros Hp. rewrite unset_insert.
  assert (Hnd : NoDup (u :: rest)) by (rewrite <- Hp; apply unset_NoDup).
  apply NoDup_cons in Hnd as [Hu _].
  rewrite Hp. rewrite filter_cons_False by tauto.
  apply Permutation_refl'. apply filter_all, Forall_forall.
  intros i Hi ->. done.
Qed.

Lemma state_of_snoc (n : nat) (p : list nat) (u : nat) :
  state_of n (p ++ [u]) = <[u := true]> (state_of n p).
Proof. unfold state_of. by rewrite foldl_app. Qed.

Lemma state_of_length (n : nat) (p : list nat) : length (state_of n p) = n.
Proof.
  induction p as [|u p IH] using rev_ind.
  - apply length_replicate.
  - by rewrite state_of_snoc, length_insert.
Qed.

Lemma state_of_lookup (n : nat) (p : list nat) (i : nat) :
  (i < n)%nat → state_of n p !! i = Some (bool_decide (i ∈ p)).
Proof.
  intros Hi. induction p as [|u p IH] using rev_ind.
  - unfold state_of. cbn [foldl]. by rewrite lookup_replicate_2.
  - rewrite state_of_snoc. destruct (decide (i = u)) as [->|Hne].
    + rewrite list_lookup_insert_eq by (by rewrite state_of_length).
      rewrite bool_decide_eq_true_2; [done|]. apply elem_of_app. right. by left.
    + rewrite list_lookup_insert_ne by done. rewrite IH. f_equal.
      apply bool_decide_ext. rewrite elem_of_app, list_elem_of_singleton. tauto.
Qed.

Lemma state_of_full (n : nat) (p : list nat) :
  p ≡ₚ seq 0 n → state_of n p = replicate n true.
Proof.
  intros Hp. apply list_eq. intros i.
  destruct (decide (i < n)%nat) as [Hi|Hi].
  - rewrite state_of_lookup by done. rewrite bool_decide_eq_true_2.
    + symmetry. by apply lookup_replicate.
    + rewrite Hp. apply elem_of_seq. lia.
  - rewrite !lookup_ge_None_2; [done|rewrite length_replicate; lia|
                                rewrite state_of_length; lia].
Qed.

Lemma weight_nonneg (E : gmap edge Z) (u v : string) :
  nonneg_counts E → 0 ≤ weight E u v.
Proof.
  intros HE. unfold weight, counter_get.
  destruct (E !! (u, v)) as [w|] eqn:Hw; simpl; [by eapply HE|done].
Qed.

Lemma outgoing_perm (E : gmap edge Z) (V : list string) (u_id : string) (vs vs' : list nat) :
  vs ≡ₚ vs' → outgoing E V u_id vs = outgoing E V u_id vs'.
Proof.
  unfold outgoing. induction 1; simpl; lia.
Qed.

Lemma outgoing_nonneg (E : gmap edge Z) (V : list string) (u_id : string) (vs : list nat) :
  nonneg_counts E → 0 ≤ outgoing E V u_id vs.
Proof.
  intros HE. induction vs as [|v vs IH]; simpl; [done|].
  pose proof (weight_nonneg E u_id (label V v) HE). lia.
Qed.

Lemma outgoing_labels (E : gmap edge Z) (V : list string) (u_id : string) (vs : list nat) :
  outgoing E V u_id vs = foldr (λ m acc, weight E u_id m + acc) 0 (label V <$> vs).
Proof.
  unfold outgoing. induction vs as [|v vs IH]; simpl; [done|]. by rewrite IH.
Qed.

Lemma sum_outgoing_spec (E : gmap edge Z) (V : list string) (u_id : string)
    (vs : list nat) (acc : Z) :
  Forall (λ v, (v < length V)%nat) vs →
  sum_outgoing E V u_id vs acc = Some (acc + outgoing E V u_id vs).
Proof.
  intros Hvs. revert acc. induction Hvs as [|v vs Hv _ IH]; intros acc; simpl.
  - f_equal. lia.
  - apply lookup_lt_is_Some in Hv as [v_id Hv_id]. rewrite Hv_id. simpl.
    rewrite IH. f_equal. unfold label, weight, counter_get. rewrite Hv_id. simpl.
    destruct (E !! (u_id, v_id)); simpl; lia.
Qed.

Lemma step_cost_nonneg (E : gmap edge Z) (V : list string) (s : list bool) (u : nat) :
  nonneg_counts E → 0 ≤ step_cost E V s u.
Proof. apply outgoing_nonneg. Qed.

Lemma cost_from_nonneg (E : gmap edge Z) (V : list string) (s : list bool) (p : list nat) :
  nonneg_counts E → 0 ≤ cost_from E V s p.
Proof.
  intros HE. revert s. induction p as [|u p IH]; intros s; simpl; [done|].
  pose proof (step_cost_nonneg E V s u HE). pose proof (IH (<[u := true]> s)). lia.
Qed.

Lemma cost_from_app (E : gmap edge Z) (V : list string) (s : list bool) (p q : list nat) :
  cost_from E V s (p ++ q)
  = cost_from E V s p + cost_from E V (foldl (λ s u, <[u := true]> s) s p) q.
Proof.
  revert s. induction p as [|u p IH]; intros s; simpl; [done|].
  rewrite IH. lia.
Qed.

Lemma path_cost_snoc (E : gmap edge Z) (V : list string) (p : list nat) (u : nat) :
  path_cost E V (p ++ [u])
  = path_cost E V p + step_cost E V (state_of (length V) p) u.
Proof. unfold path_cost. rewrite cost_from_app. simpl. unfold state_of. lia. Qed.

Lemma path_cost_take_le (E : gmap edge Z) (V : list string) (p : list nat) (k : nat) :
  nonneg_counts E → path_cost E V (take k p) ≤ path_cost E V p.
Proof.
  intros HE. rewrite <- (take_drop k p) at 2. unfold path_cost.
  rewrite cost_from_app.
  pose proof (cost_from_nonneg E V
    (foldl (λ s u, <[u := true]> s) (replicate (length V) false) (take k p))
    (drop k p) HE). lia.
Qed.

Lemma cost_from_forward (E : gmap edge Z) (V : list string) (s : list bool) (p : list nat) :
  unset s ≡ₚ p → cost_from E V s p = forward_cost E (label V <$> p).
Proof.
  revert s. induction p as [|u p IH]; intros s Hp; simpl; [done|].
  apply unset_insert_perm in Hp.
  rewrite (IH _ Hp). unfold step_cost.
  rewrite (outgoing_perm _ _ _ _ _ Hp), outgoing_labels. done.
Qed.

Lemma path_cost_forward (E : gmap edge Z) (V : list string) (p : list nat) :
  p ≡ₚ seq 0 (length V) → path_cost E V p = forward_cost E (label V <$> p).
Proof.
  intros Hp. apply cost_from_forward. by rewrite unset_replicate_false.
Qed.

Lemma labels_seq (V : list string) : label V <$> seq 0 (length V) = V.
Proof.
  apply list_eq. intros i. rewrite list_lookup_fmap.
  destruct (V !! i) as [v|] eqn:Hv.
  - rewrite lookup_seq_lt by (by eapply lookup_lt_Some). simpl.
    unfold label. by rewrite Hv.
  - rewrite lookup_seq_ge; [done|]. by apply lookup_ge_None.
Qed.

Lemma label_elem (V : list string) (u : nat) : (u < length V)%nat → label V u ∈ V.
Proof.
  intros Hu. unfold label. destruct (lookup_lt_is_Some_2 V u Hu) as [x Hx].
  rewrite Hx. simpl. by eapply list_elem_of_lookup_2.
Qed.

Lemma backward_cost_snoc (E : gmap edge Z) (R : list string) (l : string) :
  backward_cost E (R ++ [l])
  = backward_cost E R + foldr (λ m acc, weight E l m + acc) 0 R.
Proof.
  induction R as [|v R IH]; simpl; [lia|].
  rewrite IH, foldr_app. simpl.
  assert (Hacc : ∀ (c : Z) (L : list string),
            foldr (λ u acc, weight E u v + acc) c L
            = foldr (λ u acc, weight E u v + acc) 0 L + c).
  { intros c L. induction L as [|x L IHL]; simpl; [lia|]. rewrite IHL. lia. }
  rewrite Hacc. lia.
Qed.

Lemma foldr_weight_rev (E : gmap edge Z) (l : string) (L : list string) :
  foldr (λ m acc, weight E l m + acc) 0 (rev L)
  = foldr (λ m acc, weight E l m + acc) 0 L.
Proof.
  assert (Hp : ∀ L1 L2 : list string, L1 ≡ₚ L2 →
            foldr (λ m acc, weight E l m + acc) 0 L1
            = foldr (λ m acc, weight E l m + acc) 0 L2).
  { induction 1; simpl; lia. }
  apply Hp. symmetry. apply Permutation_rev.
Qed.

Lemma backward_cost_rev (E : gmap edge Z) (L : list string) :
  backward_cost E (rev L) = forward_cost E L.
Proof.
  induction L as [|l L IH]; simpl; [done|].
  rewrite backward_cost_snoc, IH, foldr_weight_rev. lia.
Qed.

(** *** The hypotheses of the search *)

Lemma built_state (E : gmap edge Z) (V : list string) (p : list nat) (h : hypothesis) :
  built E V p h → bits (state h) = state_of (length V) p.
Proof.
  induction 1 as [i|p h u i _ IH _]; simpl; [done|].
  by rewrite state_of_snoc, IH.
Qed.

Lemma built_cost (E : gmap edge Z) (V : list string) (p : list nat) (h : hypothesis) :
  built E V p h → cost h = path_cost E V p.
Proof.
  induction 1 as [i|p h u i Hb IH _]; simpl; [done|].
  by rewrite path_cost_snoc, IH, (built_state _ _ _ _ Hb).
Qed.

Lemma built_placed (E : gmap edge Z) (V : list string) (p : list nat) (h : hypothesis) :
  built E V p h → placed h = label V <$> p.
Proof.
  induction 1 as [i|p h u i Hb IH _]; [done|].
  rewrite fmap_app. simpl. rewrite <- IH. by destruct h.
Qed.

Lemma built_index (E : gmap edge Z) (V : list string) (p : list nat) (h : hypothesis)
    (u : nat) :
  built E V p h → bits (state h) !! u = Some false → (u < length V)%nat ∧ u ∉ p.
Proof.
  intros Hb Hu. rewrite (built_state _ _ _ _ Hb) in Hu.
  apply lookup_lt_Some in Hu as Hlt. rewrite state_of_length in Hlt.
  split; [done|]. intros Hin. rewrite state_of_lookup in Hu by done.
  by rewrite bool_decide_eq_true_2 in Hu.
Qed.

Lemma built_NoDup (E : gmap edge Z) (V : list string) (p : list nat) (h : hypothesis) :
  built E V p h → NoDup p ∧ Forall (λ u, (u < length V)%nat) p.
Proof.
  induction 1 as [i|p h u i Hb [IH1 IH2] Hs]; [split; constructor|].
  destruct (built_index _ _ _ _ _ Hb Hs) as [Hlt Hnin].
  split.
  - apply NoDup_app. split; [done|]. split; [|apply NoDup_singleton].
    by intros x Hx ->%list_elem_of_singleton.
  - apply Forall_app. split; [done|]. by constructor.
Qed.

Lemma built_goal (E : gmap edge Z) (V : list string) (p : list nat) (h : hypothesis) :
  built E V p h → bits (state h) = replicate (length V) true → p ≡ₚ seq 0 (length V).
Proof.
  intros Hb Hs. destruct (built_NoDup _ _ _ _ Hb) as [Hnd Hlt].
  apply NoDup_Permutation; [done|apply NoDup_seq|].
  intros i. rewrite elem_of_seq. split.
  - intros Hi. rewrite Forall_forall in Hlt. apply Hlt in Hi. lia.
  - intros [_ Hi]. simpl in Hi.
    rewrite (built_state _ _ _ _ Hb) in Hs.
    assert (Hl : state_of (length V) p !! i = Some true).
    { rewrite Hs. by apply lookup_replicate. }
    rewrite state_of_lookup in Hl by done.
    injection Hl as Hl. by apply bool_decide_eq_true in Hl.
Qed.

Lemma built_extract (E : gmap edge Z) (V : list string) (p : list nat) (h : hypothesis) :
  built E V p h → EmptyString ∉ V → extract_ranking h = Some (rev (placed h)).
Proof.
  intros Hb HV. induction Hb as [i|p h u i Hb IH Hu]; [done|].
  destruct (built_index _ _ _ _ _ Hb Hu) as [Hlt _].
  unfold successor. cbn [extract_ranking].
  destruct (decide (label V u = EmptyString)) as [He|_].
  { exfalso. apply HV. rewrite <- He. by apply label_elem. }
  rewrite IH. simpl. rewrite rev_app_distr. simpl. by destruct h.
Qed.

(** *** The agenda *)

Lemma key_weight_eq (n : nat) (s : list bool) : key_weight n s = (S n ^ zeros s)%nat.
Proof. done. Qed.

#[local] Opaque key_weight.

Lemma agenda_measure_app (n : nat) (a b : agenda_t) :
  agenda_measure n (a ++ b) = (agenda_measure n a + agenda_measure n b)%nat.
Proof.
  unfold agenda_measure. induction a as [|e a IH]; csimpl; [done|]. rewrite IH. lia.
Qed.

Lemma agenda_get_fresh (s : BitVector) (a : agenda_t) :
  ident s ∉ idents a → agenda_get s a = None.
Proof.
  induction a as [|[k h] a IH]; csimpl; [done|].
  rewrite not_elem_of_cons. intros [Hne Hnin].
  rewrite decide_False by congruence. by apply IH.
Qed.

Lemma agenda_set_fresh (s : BitVector) (h : hypothesis) (a : agenda_t) :
  ident s ∉ idents a → agenda_set s h a = a ++ [(s, h)].
Proof.
  induction a as [|[k h'] a IH]; csimpl; [done|].
  rewrite not_elem_of_cons. intros [Hne Hnin].
  rewrite decide_False by congruence. by rewrite IH.
Qed.

Lemma agenda_del_elem (s : BitVector) (a : agenda_t) e :
  e ∈ agenda_del s a ↔ ident e.1 ≠ ident s ∧ e ∈ a.
Proof. unfold agenda_del. by rewrite list_elem_of_filter. Qed.

Lemma agenda_del_idents (s : BitVector) (a : agenda_t) :
  idents (agenda_del s a) = filter (λ i, i ≠ ident s) (idents a).
Proof.
  unfold agenda_del, idents. induction a as [|e a IH]; [done|].
  csimpl. rewrite !filter_cons. destruct (decide _); csimpl; by rewrite IH.
Qed.

Lemma agenda_measure_del (n : nat) (s : BitVector) (h : hypothesis) (a : agenda_t) :
  (s, h) ∈ a →
  (agenda_measure n (agenda_del s a) + key_weight n (bits s) ≤ agenda_measure n a)%nat.
Proof.
  unfold agenda_measure, agenda_del.
  assert (Hle : ∀ a : agenda_t,
            (sum_list ((λ e, key_weight n (bits e.1))
                         <$> filter (λ e, ident e.1 ≠ ident s) a)
             ≤ sum_list ((λ e, key_weight n (bits e.1)) <$> a))%nat).
  { intros a'. induction a' as [|e a' IH]; [done|].
    rewrite filter_cons. destruct (decide _); csimpl; lia. }
  induction a as [|e a IH]; [by intros ?%elem_of_nil|].
  rewrite elem_of_cons. intros [<-|Hin].
  - rewrite filter_cons_False by (simpl; tauto). specialize (Hle a). csimpl. lia.
  - specialize (IH Hin). rewrite filter_cons. destruct (decide _); csimpl; lia.
Qed.

Lemma idents_unique (a : agenda_t) (e e' : BitVector * hypothesis) :
  NoDup (idents a) → e ∈ a → e' ∈ a → ident e.1 = ident e'.1 → e = e'.
Proof.
  unfold idents. induction a as [|x a IH]; [by intros _ ?%elem_of_nil|].
  csimpl. rewrite NoDup_cons, !elem_of_cons. intros [Hx Hnd] [->|He] [->|He'] Heq.
  - done.
  - exfalso. apply Hx. rewrite Heq. apply list_elem_of_fmap. by exists e'.
  - exfalso. apply Hx. rewrite <- Heq. apply list_elem_of_fmap. by exists e.
  - by apply IH.
Qed.

(** *** Expanding a hypothesis *)

Lemma successors_idents (E : gmap edge Z) (V : list string) (h : hypothesis)
    (us : list nat) (fresh : nat) :
  idents (successors E V h us fresh) = seq fresh (length us).
Proof.
  revert fresh. induction us as [|u us IH]; intros fresh; [done|].
  unfold idents in *. csimpl. by rewrite IH.
Qed.

Lemma successors_measure (n : nat) (E : gmap edge Z) (V : list string) (h : hypothesis)
    (us : list nat) (fresh : nat) :
  Forall (λ u, bits (state h) !! u = Some false) us →
  agenda_measure n (successors E V h us fresh)
  = (length us * S n ^ (zeros (bits (state h)) - 1))%nat.
Proof.
  intros Hus. revert fresh. unfold agenda_measure.
  induction Hus as [|u us Hu _ IH]; intros fresh; [done|].
  csimpl. rewrite IH, key_weight_eq, (zeros_insert _ _ Hu).
  replace (S (zeros (<[u := true]> (bits (state h)))) - 1)%nat
    with (zeros (<[u := true]> (bits (state h)))) by lia.
  lia.
Qed.

Lemma successors_elem (E : gmap edge Z) (V : list string) (h : hypothesis)
    (us : list nat) (fresh : nat) e :
  e ∈ successors E V h us fresh →
  ∃ u i, u ∈ us ∧ e = (state (successor E V h u i), successor E V h u i).
Proof.
  revert fresh. induction us as [|u us IH]; intros fresh; simpl.
  - by intros ?%elem_of_nil.
  - rewrite elem_of_cons. intros [->|(u' & i & Hu' & ->)%IH].
    + exists u, fresh. split; [left|done].
    + exists u', i. split; [by right|done].
Qed.

Lemma successors_cover (E : gmap edge Z) (V : list string) (h : hypothesis)
    (us : list nat) (fresh : nat) (u : nat) :
  u ∈ us →
  ∃ i, (state (successor E V h u i), successor E V h u i) ∈ successors E V h us fresh.
Proof.
  revert fresh. induction us as [|u' us IH]; intros fresh; [by intros ?%elem_of_nil|].
  rewrite elem_of_cons. intros [->|Hin].
  - exists fresh. left.
  - destruct (IH (S fresh) Hin) as [i Hi]. exists i. by right.
Qed.

(** The test [new_state not in agenda] holds for every successor: its
    state is a new object, so it is added as a new entry, whatever states
    the agenda holds. *)
Lemma expand_spec (E : gmap edge Z) (V : list string) (h : hypothesis)
    (us : list nat) (fresh : nat) (a : agenda_t) :
  length (bits (state h)) = length V →
  Forall (λ u, bits (state h) !! u = Some false) us →
  Forall (λ i, (i < fresh)%nat) (idents a) →
  expand E V h us fresh a
  = Some ((fresh + length us)%nat, a ++ successors E V h us fresh).
Proof.
  intros Hlen Hus. revert fresh a.
  induction Hus as [|u us Hu _ IH]; intros fresh a Ha.
  - simpl. by rewrite Nat.add_0_r, app_nil_r.
  - assert (Hlt : (u < length V)%nat) by (rewrite <- Hlen; by eapply lookup_lt_Some).
    assert (Hlab : V !! u = Some (label V u)).
    { unfold label. destruct (lookup_lt_is_Some_2 V u Hlt) as [x ->]. done. }
    assert (Hsum : sum_outgoing E V (label V u)
                     (uncovered (set_bit (BitVector_copy fresh (state h)) u)) 0
                   = Some (step_cost E V (bits (state h)) u)).
    { rewrite sum_outgoing_spec; [done|]. apply Forall_forall. intros v Hv.
      rewrite uncovered_unset in Hv. apply elem_of_unset, lookup_lt_Some in Hv.
      simpl in Hv. rewrite length_insert in Hv. lia. }
    assert (Hnew : ident (set_bit (BitVector_copy fresh (state h)) u) ∉ idents a).
    { simpl. intros Hin. rewrite Forall_forall in Ha. specialize (Ha _ Hin). lia. }
    cbn [expand]. rewrite Hlab. simpl. rewrite Hsum. simpl.
    rewrite (agenda_get_fresh _ _ Hnew), (agenda_set_fresh _ _ _ Hnew).
    rewrite IH.
    + f_equal. f_equal; [lia|]. by rewrite <- app_assoc.
    + unfold idents. rewrite fmap_app, Forall_app. split.
      * eapply Forall_impl; [exact Ha|]. simpl. lia.
      * constructor; [simpl; lia|constructor].
Qed.

Lemma insert_by_cost_head (x : hypothesis) (l : list hypothesis) :
  ∃ h rest, insert_by_cost x l = h :: rest
            ∧ (h = x ∨ head l = Some h)
            ∧ cost h ≤ cost x
            ∧ (∀ h0, head l = Some h0 → cost h ≤ cost h0).
Proof.
  destruct l as [|h' l]; simpl.
  - exists x, []. split; [done|]. split; [by left|]. split; [lia|done].
  - destruct (Z.leb_spec (cost x) (cost h')).
    + exists x, (h' :: l). split; [done|]. split; [by left|]. split; [lia|].
      intros h0 [= <-]. lia.
    + exists h', (insert_by_cost x l). split; [done|]. split; [by right|].
      split; [lia|]. intros h0 [= <-]. lia.
Qed.

Lemma sorted_by_cost_head (l : list hypothesis) :
  l ≠ [] →
  ∃ h rest, sorted_by_cost l = h :: rest ∧ h ∈ l ∧ ∀ h', h' ∈ l → cost h ≤ cost h'.
Proof.
  induction l as [|x l IH]; [done|]. intros _. simpl.
  destruct (insert_by_cost_head x (sorted_by_cost l)) as (h & rest & -> & Hh & Hx & Hl).
  exists h, rest. split; [done|].
  destruct l as [|y l].
  - simpl in Hh. destruct Hh as [->|?]; [|done]. split; [left|].
    intros h' ->%list_elem_of_singleton. lia.
  - destruct IH as (h1 & rest1 & Hs & Hin1 & Hmin1); [done|].
    rewrite Hs in Hh, Hl. simpl in Hh, Hl. specialize (Hl h1 eq_refl). split.
    + destruct Hh as [->|[= ->]]; [left|by right].
    + intros h' [->|Hin]%elem_of_cons; [lia|]. specialize (Hmin1 h' Hin). lia.
Qed.

(** *** The main loop *)

Section SearchCorrect.

Variable itervalues : agenda_t → list hypothesis.
Hypothesis itervalues_perm : ∀ agenda, itervalues agenda ≡ₚ agenda.*2.
Variable E : gmap edge Z.
Variable V : list string.

Lemma search_loop_spec (fuel : nat) (goal : BitVector) (fresh : nat) (a : agenda_t)
    (h0 : hypothesis) :
  bits goal = replicate (length V) true →
  agenda_ok E V fresh a → frontier E V a → (agenda_measure (length V) a < fuel)%nat →
  ∃ h p, search_loop itervalues fuel E V goal fresh a h0 = Some h
         ∧ bits (state h) = replicate (length V) true
         ∧ built E V p h
         ∧ (nonneg_counts E → ∀ q, q ≡ₚ seq 0 (length V) → cost h ≤ path_cost E V q).
Proof.
  intros Hgoalbits. revert fresh a h0.
  induction fuel as [|fuel IH]; intros fresh a h0 Hok Hfr Hm; [lia|].
  destruct Hok as [Hnd Hold Hbuilt].
  assert (Hne : a ≠ []).
  { destruct (Hfr (seq 0 (length V))) as (k & h & Hin & _); [done|].
    intros ->. by apply elem_of_nil in Hin. }
  destruct (sorted_by_cost_head (itervalues a)) as (h & rest & Hsort & Hin & Hmin).
  { intros Hnil. apply Hne. apply fmap_nil_inv with (f := snd).
    apply Permutation_nil_r. by rewrite <- itervalues_perm, Hnil. }
  rewrite itervalues_perm in Hin.
  apply list_elem_of_fmap in Hin as ([s h'] & Hh & Hin). simpl in Hh. subst h'.
  destruct (Hbuilt _ _ Hin) as [-> [p Hb]].
  assert (Hmin' : ∀ s' h', (s', h') ∈ a → cost h ≤ cost h').
  { intros s' h' Hin'. apply Hmin. rewrite itervalues_perm.
    apply list_elem_of_fmap. by exists (s', h'). }
  cbn [search_loop]. destruct a as [|e a0] eqn:Ha; [done|]. rewrite <- Ha in *.
  rewrite Hsort, Hgoalbits.
  destruct (decide (bits (state h) = replicate (length V) true)) as [Hgoal|Hgoal].
  - exists h, p. split; [done|]. split; [done|]. split; [done|].
    intros HE q Hq. destruct (Hfr q Hq) as (k & h' & Hin' & Hb').
    pose proof (Hmin' _ _ Hin'). pose proof (path_cost_take_le E V q k HE).
    rewrite (built_cost _ _ _ _ Hb') in *. lia.
  - assert (Hlen : length (bits (state h)) = length V).
    { by rewrite (built_state _ _ _ _ Hb), state_of_length. }
    assert (Hus : Forall (λ u, bits (state h) !! u = Some false) (uncovered (state h))).
    { apply Forall_forall. intros u. rewrite uncovered_unset. apply elem_of_unset. }
    assert (Hdel : Forall (λ i, (i < fresh)%nat) (idents (agenda_del (state h) a))).
    { rewrite agenda_del_idents. apply Forall_forall.
      intros i [_ Hi]%list_elem_of_filter. rewrite Forall_forall in Hold. by apply Hold. }
    rewrite (expand_spec E V h _ fresh _ Hlen Hus Hdel). simpl. apply IH.
    + split.
      * unfold idents. rewrite fmap_app. apply NoDup_app. split; [|split].
        -- fold (idents (agenda_del (state h) a)). rewrite agenda_del_idents.
           by apply NoDup_filter.
        -- intros i Hi Hi'. fold (idents (agenda_del (state h) a)) in Hi.
           fold (idents (successors E V h (uncovered (state h)) fresh)) in Hi'.
           rewrite successors_idents in Hi'. apply elem_of_seq in Hi'.
           rewrite Forall_forall in Hdel. specialize (Hdel _ Hi). lia.
        -- fold (idents (successors E V h (uncovered (state h)) fresh)).
           rewrite successors_idents. apply NoDup_seq.
      * unfold idents. rewrite fmap_app, Forall_app. split.
        -- eapply Forall_impl; [exact Hdel|]. simpl. lia.
        -- fold (idents (successors E V h (uncovered (state h)) fresh)).
           rewrite successors_idents. apply Forall_forall.
           intros i Hi%elem_of_seq. lia.
      * intros s1 h1 [Hd|Hs]%elem_of_app.
        -- apply agenda_del_elem in Hd as [_ Hd]. by apply Hbuilt.
        -- apply successors_elem in Hs as (u & i & Hu & [= -> ->]).
           split; [done|]. exists (p ++ [u]). apply built_step; [done|].
           rewrite uncovered_unset in Hu. by apply elem_of_unset.
    + intros q Hq. destruct (Hfr q Hq) as (k & h' & Hin' & Hb').
      destruct (decide (ident (state h') = ident (state h))) as [Hs|Hs].
      * assert (h' = h) as ->.
        { pose proof (idents_unique a _ _ Hnd Hin' Hin Hs) as Heq. by injection Heq. }
        assert (Hbits : state_of (length V) (take k q) = bits (state h)).
        { by rewrite (built_state _ _ _ _ Hb'). }
        assert (Hk : (k < length q)%nat).
        { destruct (decide (k < length q)%nat); [done|]. exfalso. apply Hgoal.
          rewrite <- Hbits, take_ge by lia. by apply state_of_full. }
        destruct (lookup_lt_is_Some_2 q k Hk) as [u Hu].
        assert (Hun : bits (state h) !! u = Some false).
        { rewrite <- Hbits. rewrite state_of_lookup.
          - f_equal. apply bool_decide_eq_false_2. intros Hin2.
            assert (Hnd' : NoDup q) by (rewrite Hq; apply NoDup_seq).
            rewrite <- (take_drop_middle q k u Hu) in Hnd'.
            apply NoDup_app in Hnd' as (_ & Hnd' & _). apply (Hnd' u Hin2). left.
          - assert (u ∈ seq 0 (length V)) as Hr.
            { rewrite <- Hq. by eapply list_elem_of_lookup_2. }
            apply elem_of_seq in Hr. lia. }
        destruct (successors_cover E V h (uncovered (state h)) fresh u) as [i Hi].
        { rewrite uncovered_unset. by apply elem_of_unset. }
        exists (S k), (successor E V h u i). split.
        -- apply elem_of_app. by right.
        -- rewrite (take_S_r q k u Hu). by apply built_step.
      * exists k, h'. split; [|done]. apply elem_of_app. left.
        apply agenda_del_elem. done.
    + rewrite agenda_measure_app, (successors_measure _ _ _ _ _ _ Hus).
      pose proof (agenda_measure_del (length V) _ _ _ Hin) as Hd.
      rewrite key_weight_eq in Hd.
      pose proof (unset_length (bits (state h))) as Hul. rewrite Hlen in Hul.
      rewrite uncovered_unset.
      destruct (zeros (bits (state h))) as [|z] eqn:Hz.
      { exfalso. apply Hgoal. rewrite <- Hlen. by apply zeros_none. }
      replace (S z - 1)%nat with z by lia.
      rewrite Nat.pow_succ_r' in Hd.
      assert (1 ≤ S (length V) ^ z)%nat.
      { apply Nat.neq_0_lt_0, Nat.pow_nonzero. lia. }
      nia.
Qed.

Lemma search_spec :
  V ≠ [] →
  ∃ h p, search itervalues E V = Some h
         ∧ bits (state h) = replicate (length V) true
         ∧ built E V p h
         ∧ p ≡ₚ seq 0 (length V)
         ∧ (nonneg_counts E → ∀ q, q ≡ₚ seq 0 (length V) → cost h ≤ path_cost E V q).
Proof.
  intros HV. unfold search.
  assert (Hgoal : BitVector_bitlist 0 (replicate (length V) true)
                  = Some (mkBitVector 0 (replicate (length V) true))).
  { destruct V; [done|]. done. }
  rewrite Hgoal. simpl.
  destruct (search_loop_spec (search_fuel (length V))
              (mkBitVector 0 (replicate (length V) true)) 2
              [(BitVector_zero 1 (length V), Hyp 0 (BitVector_zero 1 (length V)) None None)]
              (Hyp 0 (BitVector_zero 1 (length V)) None None))
    as (h & p & Hs & Hg & Hb & Hopt).
  - done.
  - split.
    + apply NoDup_singleton.
    + constructor; [simpl; lia|constructor].
    + intros s h [= -> ->]%list_elem_of_singleton. split; [done|].
      exists []. constructor.
  - intros q Hq. exists 0%nat, (Hyp 0 (BitVector_zero 1 (length V)) None None).
    split; [left|]. rewrite take_0. constructor.
  - unfold agenda_measure, search_fuel. simpl.
    rewrite key_weight_eq, zeros_replicate_false. lia.
  - exists h, p. split; [done|]. split; [done|]. split; [done|].
    split; [by eapply built_goal|done].
Qed.

End SearchCorrect.

Lemma search_nil (itervalues : agenda_t → list hypothesis) (E : gmap edge Z) :
  search itervalues E [] = None.
Proof. done. Qed.

Lemma search_Some (itervalues : agenda_t → list hypothesis) (E : gmap edge Z)
    (V : list string) (h : hypothesis) :
  search itervalues E V = Some h → V ≠ [].
Proof. intros Hs ->. by rewrite search_nil in Hs. Qed.

(** *** Edges outside the vertex list *)

Lemma sum_outgoing_agree (E E' : gmap edge Z) (V : list string) (u_id : string)
    (vs : list nat) (acc : Z) :
  agree_on V E E' → u_id ∈ V →
  sum_outgoing E V u_id vs acc = sum_outgoing E' V u_id vs acc.
Proof.
  intros Hag Hu. revert acc. induction vs as [|v vs IH]; intros acc; simpl; [done|].
  destruct (V !! v) as [v_id|] eqn:Hv; simpl; [|done].
  rewrite (Hag u_id v_id Hu) by (by eapply list_elem_of_lookup_2). apply IH.
Qed.

Lemma expand_agree (E E' : gmap edge Z) (V : list string) (h : hypothesis)
    (us : list nat) (fresh : nat) (a : agenda_t) :
  agree_on V E E' → expand E V h us fresh a = expand E' V h us fresh a.
Proof.
  intros Hag. revert fresh a. induction us as [|u us IH]; intros fresh a; simpl; [done|].
  destruct (V !! u) as [u_id|] eqn:Hu; simpl; [|done].
  rewrite (sum_outgoing_agree E E') by (done || by eapply list_elem_of_lookup_2).
  destruct (sum_outgoing E' V u_id _ 0) as [added|]; simpl; [|done].
  apply IH.
Qed.

Lemma search_loop_agree (itervalues : agenda_t → list hypothesis)
    (E E' : gmap edge Z) (V : list string) (fuel : nat) (goal : BitVector)
    (fresh : nat) (a : agenda_t) (h0 : hypothesis) :
  agree_on V E E' →
  search_loop itervalues fuel E V goal fresh a h0
  = search_loop itervalues fuel E' V goal fresh a h0.
Proof.
  intros Hag. revert fresh a h0.
  induction fuel as [|fuel IH]; intros fresh a h0; simpl; [done|].
  destruct a as [|e a]; [done|].
  destruct (sorted_by_cost _) as [|h rest]; [done|].
  destruct (decide _); [done|].
  rewrite (expand_agree E E') by done.
  destruct (expand E' V h _ _ _) as [[fresh' a']|]; simpl; [|done]. apply IH.
Qed.

Lemma run_lopez_mfas_solver_agree (itervalues : agenda_t → list hypothesis)
    (E E' : gmap edge Z) (V : list string) :
  agree_on V E E' →
  run_lopez_mfas_solver itervalues E V = run_lopez_mfas_solver itervalues E' V.
Proof.
  intros Hag. unfold run_lopez_mfas_solver, search.
  destruct (BitVector_bitlist _ _) as [goal|]; [|done].
  cbn [mbind option_bind]. by rewrite (search_loop_agree itervalues E E').
Qed.

Lemma agree_on_insert (E : gmap edge Z) (V : list string) (a b : string) (w : Z) :
  a ∉ V ∨ b ∉ V → agree_on V (<[(a, b) := w]> E) E.
Proof.
  intros Hab x y Hx Hy. apply lookup_insert_ne. intros [= -> ->]. tauto.
Qed.

(** *** Reading the ranking off the goal *)

Lemma built_extract_length (E : gmap edge Z) (V : list string) (p : list nat)
    (h : hypothesis) :
  built E V p h →
  ∃ ranking, extract_ranking h = Some ranking
    ∧ (length ranking ≤ length (placed h))%nat
    ∧ (EmptyString ∈ placed h → (length ranking < length (placed h))%nat).
Proof.
  induction 1 as [i|p h u i Hb (r & Hr & Hle & Hlt) Hu].
  - exists []. split; [done|]. split; [done|]. by intros ?%elem_of_nil.
  - assert (Hpl : placed (successor E V h u i) = placed h ++ [label V u])
      by (by destruct h).
    rewrite Hpl, length_app. unfold successor. cbn [extract_ranking]. simpl.
    destruct (decide (label V u = EmptyString)) as [He|Hne].
    + exists []. split; [done|]. simpl. split; lia.
    + exists (label V u :: r). rewrite Hr. split; [done|]. simpl. split; [lia|].
      rewrite elem_of_app, list_elem_of_singleton. intros [Hin|?]; [|done].
      specialize (Hlt Hin). lia.
Qed.

Lemma run_lopez_mfas_solver_returns (itervalues : agenda_t → list hypothesis)
    (E : gmap edge Z) (V : list string) :
  (∀ agenda, itervalues agenda ≡ₚ agenda.*2) →
  V ≠ [] →
  ∃ ranking, run_lopez_mfas_solver itervalues E V = Some ranking
    ∧ (length ranking ≤ length V)%nat
    ∧ (EmptyString ∈ V → (length ranking < length V)%nat)
    ∧ (EmptyString ∉ V → ranking ≡ₚ V).
Proof.
  intros Hperm Hne.
  destruct (search_spec itervalues Hperm E V Hne) as (h & p & Hs & _ & Hb & Hp & _).
  assert (Hpl : placed h ≡ₚ V).
  { rewrite (built_placed _ _ _ _ Hb), Hp. by rewrite labels_seq. }
  destruct (built_extract_length _ _ _ _ Hb) as (r & Hr & Hle & Hlt).
  exists r. unfold run_lopez_mfas_solver. rewrite Hs. simpl.
  rewrite Hpl in Hle, Hlt. split; [done|]. split; [done|]. split; [done|].
  intros HV. rewrite (built_extract _ _ _ _ Hb HV) in Hr. injection Hr as <-.
  by rewrite <- Permutation_rev.
Qed.

Lemma backward_cost_nonneg (E : gmap edge Z) (L : list string) :
  nonneg_counts E → 0 ≤ backward_cost E L.
Proof.
  intros HE. induction L as [|v L IH]; simpl; [done|].
  assert (0 ≤ foldr (λ u acc, weight E u v + acc) 0 L).
  { clear IH. induction L as [|u L IHL]; simpl; [done|].
    pose proof (weight_nonneg E u v HE). lia. }
  lia.
Qed.

Lemma backward_cost_zero (E : gmap edge Z) (L : list string) (i j : nat) (a b : string) :
  nonneg_counts E → backward_cost E L = 0 →
  (i < j)%nat → L !! i = Some a → L !! j = Some b → weight E b a = 0.
Proof.
  intros HE. revert i j. induction L as [|v L IH]; intros i j Hz Hij Hi Hj;
    [by rewrite lookup_nil in Hi|].
  simpl in Hz. pose proof (backward_cost_nonneg E L HE) as Hrest.
  assert (Hsum : ∀ L' : list string,
            0 ≤ foldr (λ u acc, weight E u v + acc) 0 L'
            ∧ (foldr (λ u acc, weight E u v + acc) 0 L' = 0 →
               ∀ u, u ∈ L' → weight E u v = 0)).
  { induction L' as [|u L' [IH1 IH2]]; simpl.
    - split; [done|]. by intros _ u ?%elem_of_nil.
    - pose proof (weight_nonneg E u v HE). split; [lia|].
      intros H0 u' [->|Hin]%elem_of_cons; [lia|]. apply IH2; [lia|done]. }
  destruct (Hsum L) as [Hs1 Hs2].
  destruct j as [|j]; [lia|]. simpl in Hj. destruct i as [|i]; simpl in Hi.
  - injection Hi as <-. apply Hs2; [lia|]. by eapply list_elem_of_lookup_2.
  - apply (IH i j); [lia|lia|done|done].
Qed.

(** The goal hypothesis the search stops at: the order read off it is an
    order of the vertices, of the cost of the hypothesis, and with
    non-negative weights no order costs less. *)
Lemma search_goal (itervalues : agenda_t → list hypothesis)
    (E : gmap edge Z) (V : list string) (h : hypothesis) :
  (∀ agenda, itervalues agenda ≡ₚ agenda.*2) →
  search itervalues E V = Some h →
  bits (state h) = replicate (length V) true
  ∧ (∃ p, built E V p h)
  ∧ rev (placed h) ≡ₚ V
  ∧ backward_cost E (rev (placed h)) = cost h
  ∧ (nonneg_counts E → ∀ ranking, ranking ≡ₚ V → cost h ≤ backward_cost E ranking).
Proof.
  intros Hperm Hsearch. pose proof (search_Some _ _ _ _ Hsearch) as Hne.
  destruct (search_spec itervalues Hperm E V Hne) as (h' & p & Hs & Hg & Hb & Hp & Hopt).
  assert (h' = h) as -> by congruence.
  split; [done|]. split; [by exists p|].
  rewrite (built_placed _ _ _ _ Hb). split; [|split].
  - rewrite <- Permutation_rev, Hp. by rewrite labels_seq.
  - by rewrite backward_cost_rev, <- path_cost_forward, (built_cost _ _ _ _ Hb).
  - intros HE ranking Hr.
    assert (Hrev : rev ranking ≡ₚ label V <$> seq 0 (length V)).
    { by rewrite <- Permutation_rev, labels_seq. }
    apply Permutation_map_inv in Hrev as (q & Hq & Hqp).
    rewrite <- (rev_involutive ranking), backward_cost_rev.
    change (map (label V) q) with (label V <$> q) in Hq. rewrite Hq.
    rewrite <- path_cost_forward by (by symmetry). apply (Hopt HE). by symmetry.
Qed.

Lemma run_lopez_mfas_solver_optimal (itervalues : agenda_t → list hypothesis)
    (E : gmap edge Z) (V : list string) :
  (∀ agenda, itervalues agenda ≡ₚ agenda.*2) →
  nonneg_counts E →
  V ≠ [] →
  EmptyString ∉ V →
  ∃ h, search itervalues E V = Some h
    ∧ run_lopez_mfas_solver itervalues E V = Some (rev (placed h))
    ∧ rev (placed h) ≡ₚ V
    ∧ backward_cost E (rev (placed h)) = cost h
    ∧ ∀ q, q ≡ₚ V → cost h ≤ backward_cost E q.
Proof.
  intros Hperm HE Hne HV.
  destruct (search_spec itervalues Hperm E V Hne) as (h & p & Hs & _ & Hb & _).
  destruct (search_goal itervalues E V h Hperm Hs) as (_ & _ & Hp & Hc & Hopt).
  exists h. split; [done|]. split.
  - unfold run_lopez_mfas_solver. rewrite Hs. simpl. by eapply built_extract.
  - split; [done|]. split; [done|]. by apply Hopt.
Qed.

(** *** Rows *)

Lemma make_rows_from_sys_id (ties : list bool) (id_list : list string) (i : nat)
    (last_rank : Z) (rows : list RankRow) :
  make_rows_from i last_rank id_list ties = Some rows → sys_id <$> rows = id_list.
Proof.
  revert i last_rank rows. induction id_list as [|x rest IH]; intros i last_rank rows; simpl.
  - by intros [= <-].
  - destruct (ties !! i) as [tie|]; simpl; [|done].
    destruct (make_rows_from _ _ rest ties) as [rows'|] eqn:Hrows; simpl; [|done].
    intros [= <-]. simpl. f_equal. by eapply IH.
Qed.

Lemma make_rows_mark_ties (ranking : list string) (edges : gmap edge Z) :
  ∃ rows, make_rows ranking (mark_ties ranking edges) = Some rows
    ∧ sys_id <$> rows = ranking
    ∧ Forall (λ r, 1 ≤ row_rank r) rows
    ∧ head (row_rank <$> rows) = (λ _, 1) <$> head ranking.
Proof.
  unfold make_rows. destruct (decide (ranking = [])) as [->|Hne].
  { exists []. split; [done|]. split; [done|]. split; [constructor|done]. }
  assert (Hpos : (0 < length ranking)%nat) by (destruct ranking; simpl; [done|lia]).
  assert (H0 : mark_ties ranking edges !! 0%nat = Some false).
  { pose proof (mark_ties_first ranking edges) as Hnt.
    destruct (mark_ties ranking edges !! 0%nat) as [[]|] eqn:Hl; [done|done|].
    apply lookup_ge_None in Hl. rewrite mark_ties_length in Hl. lia. }
  destruct (make_rows_from_ok (mark_ties ranking edges) ranking 0 0)
    as (rows & Hrows & _ & Hall & Hhead).
  { rewrite mark_ties_length. lia. }
  { by left. }
  exists rows. split; [done|]. split; [by eapply make_rows_from_sys_id|].
  split; [done|]. by apply Hhead.
Qed.

(** The vertex set of a segment is the set of the system identifiers of
    its judgments. *)
Lemma aggregate_vertices (ranking_list : list Ranking) (x : string) :
  x ∈ vertices (aggregate ranking_list)
  ↔ ∃ r, r ∈ ranking_list ∧ (x = sysA r ∨ x = sysB r).
Proof.
  unfold aggregate.
  assert (Hgen : ∀ t, x ∈ vertices (foldl tally t ranking_list)
                      ↔ x ∈ vertices t ∨ ∃ r, r ∈ ranking_list ∧ (x = sysA r ∨ x = sysB r)).
  { induction ranking_list as [|r rl IH]; intros t; simpl.
    - split; [by left|]. intros [?|(r & ?%elem_of_nil & _)]; done.
    - rewrite IH. simpl. rewrite !elem_of_union, !elem_of_singleton. split.
      + intros [[?|[?|?]]|(r' & ? & ?)]; [right; exists r|right; exists r|by left|].
        * split; [left|tauto].
        * split; [left|tauto].
        * right. exists r'. split; [by right|done].
      + intros [?|(r' & [->|?]%elem_of_cons & ?)]; [tauto|tauto|].
        right. by exists r'. }
  rewrite Hgen. simpl. split; [intros [?%not_elem_of_empty|?]; done|by right].
Qed.

(** * Main results *)

Lemma in_order_perm (agenda : agenda_t) : in_order agenda ≡ₚ agenda.*2.
Proof. reflexivity. Qed.

(** The agenda yielding its values last inserted first. *)
Lemma reversed_order_perm (agenda : agenda_t) : rev agenda.*2 ≡ₚ agenda.*2.
Proof. symmetry. apply Permutation_rev. Qed.

(** C1 (amended).  Position [i] is flagged exactly when [i >= 1] and the edge
    map holds the edge from the vertex at [i-1] to the vertex at [i] with
    weight 0; where the edge map holds no edge from the one to the other,
    the position is not flagged. *)
Theorem mark_ties_flags_zero_edge (ranking : list string) (edges : gmap edge Z) (i : nat) :
  (mark_ties ranking edges !! i = Some true
   ↔ (1 ≤ i)%nat ∧ zero_edge ranking edges i)
  ∧ (∀ prev_v v, ranking !! (i - 1)%nat = Some prev_v → ranking !! i = Some v →
       edges !! (prev_v, v) = None → mark_ties ranking edges !! i = Some false).
Proof.
  split; [apply mark_ties_lookup|].
  intros prev_v v Hprev Hv Hnone.
  destruct (mark_ties ranking edges !! i) as [[]|] eqn:Hi; [|done|].
  - apply mark_ties_lookup in Hi as [_ (prev_v' & v' & Hprev' & Hv' & Hw)].
    congruence.
  - apply lookup_ge_None in Hi. rewrite mark_ties_length in Hi.
    apply lookup_lt_Some in Hv. lia.
Qed.

(** C1, as stated, fails: with no edge between the two vertices, in either
    direction, the second position is not flagged. *)
Lemma absent_edge_is_not_a_tie :
  (∅ : gmap edge Z) !! ("A", "B") = None
  ∧ (∅ : gmap edge Z) !! ("B", "A") = None
  ∧ mark_ties ["A"; "B"] (∅ : gmap edge Z) = [false; false].
Proof. repeat split; vm_compute; reflexivity. Qed.

(** C2 (amended).  Where the search reaches the goal and no vertex is the
    empty string, the returned list is the placement order reversed: the
    vertex placed last comes first and the vertex placed first comes last. *)
Theorem ranking_reverses_placement (itervalues : agenda_t → list hypothesis)
    (E : gmap edge Z) (V : list string) (h : hypothesis) :
  (∀ agenda, itervalues agenda ≡ₚ agenda.*2) →
  EmptyString ∉ V →
  search itervalues E V = Some h →
  bits (state h) = replicate (length V) true →
  placed h ≡ₚ V
  ∧ run_lopez_mfas_solver itervalues E V = Some (rev (placed h))
  ∧ (∀ v, last (placed h) = Some v → head (rev (placed h)) = Some v)
  ∧ (∀ v, head (placed h) = Some v → last (rev (placed h)) = Some v).
Proof.
  intros Hperm HV Hs _.
  destruct (search_goal itervalues E V h Hperm Hs) as (_ & [p Hb] & Hp & _).
  split; [by rewrite (Permutation_rev (placed h))|]. split; [|split].
  - unfold run_lopez_mfas_solver. rewrite Hs. simpl. by eapply built_extract.
  - intros v. destruct (placed h) as [|x l] using rev_ind; [done|].
    rewrite last_snoc, rev_app_distr. done.
  - intros v. destruct (placed h) as [|x l]; [done|].
    simpl. intros [= ->]. by rewrite last_snoc.
Qed.

Lemma ranking_reverses_placement_witness :
  (∀ agenda, in_order agenda ≡ₚ agenda.*2)
  ∧ (EmptyString ∉ ["A"; "B"])
  ∧ search in_order edges_AB ["A"; "B"] = Some goal_AB
  ∧ bits (state goal_AB) = replicate (length ["A"; "B"]) true
  ∧ placed goal_AB ≡ₚ ["A"; "B"]
  ∧ run_lopez_mfas_solver in_order edges_AB ["A"; "B"] = Some (rev (placed goal_AB))
  ∧ (∀ v, last (placed goal_AB) = Some v → head (rev (placed goal_AB)) = Some v)
  ∧ (∀ v, head (placed goal_AB) = Some v → last (rev (placed goal_AB)) = Some v).
Proof.
  assert (H : EmptyString ∉ ["A"; "B"])
    by (refine (bool_decide_unpack _ _); vm_compute; exact I).
  assert (Hs : search in_order edges_AB ["A"; "B"] = Some goal_AB)
    by (vm_compute; reflexivity).
  split; [exact in_order_perm|]. split; [exact H|]. split; [exact Hs|].
  split; [reflexivity|].
  apply (ranking_reverses_placement in_order edges_AB ["A"; "B"] goal_AB
           in_order_perm H Hs eq_refl).
Defined.

(** C2, as stated, fails: with the edge A over B the search places B first
    and A second, and the returned list starts with A. *)
Lemma first_placed_is_ranked_last :
  (placed <$> search in_order edges_AB ["A"; "B"]) = Some ["B"; "A"]
  ∧ run_lopez_mfas_solver in_order edges_AB ["A"; "B"] = Some ["A"; "B"].
Proof. split; vm_compute; reflexivity. Qed.

(** C3 (amended).  An edge with an end outside the vertex list is never
    looked up.  On a non-empty vertex list the solver returns normally:
    with the agenda yielded in the same order, the ranking it returns
    without the edge; and whatever the order, with non-negative weights and
    no empty identifier, a ranking of the same backward weight. *)
Theorem edges_outside_vertices_ignored
    (itervalues itervalues' : agenda_t → list hypothesis)
    (E : gmap edge Z) (V : list string) (a b : string) (w : Z) :
  (∀ agenda, itervalues agenda ≡ₚ agenda.*2) →
  (∀ agenda, itervalues' agenda ≡ₚ agenda.*2) →
  V ≠ [] →
  a ∉ V ∨ b ∉ V →
  ∃ ranking,
    run_lopez_mfas_solver itervalues (<[(a, b) := w]> E) V = Some ranking
    ∧ run_lopez_mfas_solver itervalues E V = Some ranking
    ∧ (nonneg_counts E → EmptyString ∉ V →
       ∃ ranking', run_lopez_mfas_solver itervalues' E V = Some ranking'
         ∧ backward_cost E ranking' = backward_cost E ranking).
Proof.
  intros Hperm Hperm' Hne Hab.
  destruct (run_lopez_mfas_solver_returns itervalues E V Hperm Hne) as (r & Hr & _).
  exists r. split; [|split; [done|]].
  - by rewrite (run_lopez_mfas_solver_agree itervalues _ E V (agree_on_insert E V a b w Hab)).
  - intros HE HV.
    destruct (run_lopez_mfas_solver_optimal itervalues E V Hperm HE Hne HV)
      as (h & _ & Hrun & Hp & Hc & Hopt).
    destruct (run_lopez_mfas_solver_optimal itervalues' E V Hperm' HE Hne HV)
      as (h' & _ & Hrun' & Hp' & Hc' & Hopt').
    exists (rev (placed h')). split; [done|].
    assert (r = rev (placed h)) as -> by congruence.
    pose proof (Hopt _ Hp'). pose proof (Hopt' _ Hp). lia.
Qed.

Lemma edges_outside_vertices_ignored_witness :
  (∀ agenda, in_order agenda ≡ₚ agenda.*2)
  ∧ (∀ agenda : agenda_t, rev agenda.*2 ≡ₚ agenda.*2)
  ∧ ["A"; "B"] ≠ []
  ∧ ("A" ∉ ["A"; "B"] ∨ "Z" ∉ ["A"; "B"])
  ∧ ∃ ranking,
      run_lopez_mfas_solver in_order (<[("A", "Z") := 5]> edges_AB) ["A"; "B"] = Some ranking
      ∧ run_lopez_mfas_solver in_order edges_AB ["A"; "B"] = Some ranking
      ∧ (nonneg_counts edges_AB → EmptyString ∉ ["A"; "B"] →
         ∃ ranking',
           run_lopez_mfas_solver (λ agenda, rev agenda.*2) edges_AB ["A"; "B"]
           = Some ranking'
           ∧ backward_cost edges_AB ranking' = backward_cost edges_AB ranking).
Proof.
  assert (H : "A" ∉ ["A"; "B"] ∨ "Z" ∉ ["A"; "B"])
    by (right; refine (bool_decide_unpack _ _); vm_compute; exact I).
  assert (Hne : ["A"; "B"] ≠ []) by discriminate.
  split; [exact in_order_perm|]. split; [exact reversed_order_perm|].
  split; [exact Hne|]. split; [exact H|].
  apply (edges_outside_vertices_ignored in_order (λ agenda, rev agenda.*2)
           edges_AB ["A"; "B"] "A" "Z" 5 in_order_perm reversed_order_perm Hne H).
Defined.

(** C3, as stated, fails: the tournament holds an edge to [Z], which is not
    a vertex, and the solver returns a ranking. *)
Lemma solver_accepts_foreign_edge :
  ("Z" ∉ ["A"])
  ∧ run_lopez_mfas_solver in_order ({[ ("A", "Z") := 5 ]} : gmap edge Z) ["A"] = Some ["A"].
Proof.
  split; [refine (bool_decide_unpack _ _); vm_compute; exact I|vm_compute; reflexivity].
Qed.

(** C4 (amended).  On a vertex list that is not empty, and with
    non-negative weights, the search reaches a goal hypothesis, and its
    cost is the least backward-edge weight over the orders of the vertices:
    the order read off the goal has this weight and no order has less.  It
    holds for every number of vertices from one, so up to six. *)
Theorem search_cost_is_minimum (itervalues : agenda_t → list hypothesis)
    (E : gmap edge Z) (V : list string) :
  (∀ agenda, itervalues agenda ≡ₚ agenda.*2) →
  nonneg_counts E →
  V ≠ [] →
  ∃ h, search itervalues E V = Some h
    ∧ bits (state h) = replicate (length V) true
    ∧ rev (placed h) ≡ₚ V
    ∧ backward_cost E (rev (placed h)) = cost h
    ∧ (∀ ranking, ranking ≡ₚ V → cost h ≤ backward_cost E ranking).
Proof.
  intros Hperm HE Hne.
  destruct (search_spec itervalues Hperm E V Hne) as (h & _ & Hs & _).
  destruct (search_goal itervalues E V h Hperm Hs) as (Hg & _ & Hp & Hc & Hopt).
  exists h. split; [done|]. split; [done|]. split; [done|]. split; [done|].
  by apply Hopt.
Qed.

Lemma search_cost_is_minimum_witness :
  (∀ agenda, in_order agenda ≡ₚ agenda.*2)
  ∧ nonneg_counts edges_cycle
  ∧ ["A"; "B"; "C"] ≠ []
  ∧ ∃ h, search in_order edges_cycle ["A"; "B"; "C"] = Some h
      ∧ bits (state h) = replicate (length ["A"; "B"; "C"]) true
      ∧ rev (placed h) ≡ₚ ["A"; "B"; "C"]
      ∧ backward_cost edges_cycle (rev (placed h)) = cost h
      ∧ (∀ ranking, ranking ≡ₚ ["A"; "B"; "C"]
                    → cost h ≤ backward_cost edges_cycle ranking).
Proof.
  assert (H : nonneg_counts edges_cycle)
    by (refine (bool_decide_unpack _ _); vm_compute; exact I).
  assert (Hne : ["A"; "B"; "C"] ≠ []) by discriminate.
  split; [exact in_order_perm|]. split; [exact H|]. split; [exact Hne|].
  apply (search_cost_is_minimum in_order edges_cycle ["A"; "B"; "C"]
           in_order_perm H Hne).
Defined.

(** C4, as stated, fails: over the empty vertex list, with no edge at all,
    the constructor of the goal state raises, and the search reaches no
    goal hypothesis whose cost could be the minimum. *)
Lemma empty_vertex_list_has_no_goal :
  length ([] : list string) = 0%nat
  ∧ search in_order (∅ : gmap edge Z) [] = None
  ∧ run_lopez_mfas_solver in_order (∅ : gmap edge Z) [] = None.
Proof. repeat split. Qed.

(** C5, where the code falls short of it.  When a vertex is the empty
    string, the ranking read off the goal has fewer entries than there are
    vertices: it is not an order of the vertex list. *)
Theorem empty_identifier_drops_vertices (itervalues : agenda_t → list hypothesis)
    (E : gmap edge Z) (V : list string) :
  (∀ agenda, itervalues agenda ≡ₚ agenda.*2) →
  EmptyString ∈ V →
  ∃ ranking, run_lopez_mfas_solver itervalues E V = Some ranking
    ∧ (length ranking < length V)%nat
    ∧ ¬ ranking ≡ₚ V.
Proof.
  intros Hperm Hin.
  assert (Hne : V ≠ []) by (intros ->; by apply elem_of_nil in Hin).
  destruct (run_lopez_mfas_solver_returns itervalues E V Hperm Hne)
    as (ranking & Hrun & _ & Hlt & _).
  specialize (Hlt Hin). exists ranking. split; [done|]. split; [done|].
  intros Hp. apply Permutation_length in Hp. lia.
Qed.

Lemma empty_identifier_drops_vertices_witness :
  (∀ agenda, in_order agenda ≡ₚ agenda.*2)
  ∧ EmptyString ∈ [EmptyString; "B"]
  ∧ run_lopez_mfas_solver in_order edges_empty_identifier [EmptyString; "B"] = Some []
  ∧ ∃ ranking,
      run_lopez_mfas_solver in_order edges_empty_identifier [EmptyString; "B"]
      = Some ranking
      ∧ (length ranking < length [EmptyString; "B"])%nat
      ∧ ¬ ranking ≡ₚ [EmptyString; "B"].
Proof.
  assert (H : EmptyString ∈ [EmptyString; "B"]) by left.
  split; [exact in_order_perm|]. split; [exact H|].
  split; [vm_compute; reflexivity|].
  apply (empty_identifier_drops_vertices in_order edges_empty_identifier
           [EmptyString; "B"] in_order_perm H).
Defined.

Lemma counter_get_pos (c : gmap edge Z) (k : edge) :
  1 ≤ counter_get c k → is_Some (c !! k).
Proof. unfold counter_get. destruct (c !! k); simpl; [eauto|lia]. Qed.

(** C6.  For a pair with an equality judgment: when the ties are at least
    half of all the judgments of the pair, neither directed edge is left in
    the working edge set nor in the tournament; when they are fewer, both
    directed edges are as the aggregation left them. *)
Theorem equality_majority_deletes_edges (ranking_list : list Ranking) (a b : string) :
  1 ≤ ties ranking_list a b + ties ranking_list b a →
  ∃ di tournament,
    resolve_equality (aggregate ranking_list) = Some di
    ∧ reduce_tournament di = Some tournament
    ∧ (wins ranking_list a b + wins ranking_list b a
       + ties ranking_list a b + ties ranking_list b a
       ≤ 2 * (ties ranking_list a b + ties ranking_list b a) →
       di !! (a, b) = None ∧ di !! (b, a) = None
       ∧ tournament !! (a, b) = None ∧ tournament !! (b, a) = None)
    ∧ (2 * (ties ranking_list a b + ties ranking_list b a)
       < wins ranking_list a b + wins ranking_list b a
         + ties ranking_list a b + ties ranking_list b a →
       di !! (a, b) = di_edges (aggregate ranking_list) !! (a, b)
       ∧ di !! (b, a) = di_edges (aggregate ranking_list) !! (b, a)).
Proof.
  unfold ties, wins. intros Heq.
  destruct (pipeline_ok ranking_list) as (di & t & Hdi & Ht & _ & Hlook & Hnet).
  destruct (aggregate_ok ranking_list) as [Hpd Hpe Htot].
  set (agg := aggregate ranking_list) in *.
  assert (Hsome : is_Some (eq_edges agg !! (a, b)) ∨ is_Some (eq_edges agg !! (b, a))).
  { pose proof (positive_counts_get _ (a, b) Hpe).
    pose proof (positive_counts_get _ (b, a) Hpe).
    destruct (decide (1 ≤ counter_get (eq_edges agg) (a, b)));
      [left|right]; apply counter_get_pos; lia. }
  assert (Hmaj : majority (eq_edges agg) (edge_counts agg) (a, b) = true
                 ↔ counter_get (di_edges agg) (a, b) + counter_get (di_edges agg) (b, a)
                   + counter_get (eq_edges agg) (a, b) + counter_get (eq_edges agg) (b, a)
                   ≤ 2 * (counter_get (eq_edges agg) (a, b)
                          + counter_get (eq_edges agg) (b, a))).
  { unfold majority. simpl. rewrite !Htot, Z.leb_le. lia. }
  exists di, t. split; [done|]. split; [done|]. split.
  - intros Hle. apply Hmaj in Hle.
    assert (Hab : di !! (a, b) = None).
    { rewrite Hlook. rewrite (proj2 (resolved_away_spec _ _ a b)); done. }
    assert (Hba : di !! (b, a) = None).
    { rewrite Hlook. rewrite (proj2 (resolved_away_spec _ _ b a)); [done|].
      rewrite majority_swap. split; [done|tauto]. }
    split; [done|]. split; [done|].
    rewrite !Hnet. unfold net_weight. by rewrite Hab, Hba.
  - intros Hlt.
    assert (Hnm : majority (eq_edges agg) (edge_counts agg) (a, b) = false).
    { apply not_true_is_false. intros Hm. apply Hmaj in Hm. lia. }
    rewrite !Hlook.
    destruct (resolved_away _ _ _ (a, b)) eqn:H1.
    { apply resolved_away_spec in H1 as [H1 _]. congruence. }
    destruct (resolved_away _ _ _ (b, a)) eqn:H2.
    { apply resolved_away_spec in H2 as [H2 _]. rewrite majority_swap in H2. congruence. }
    done.
Qed.

Lemma equality_majority_deletes_edges_witness :
  1 ≤ ties (rankings_of scenario_2) "A" "B" + ties (rankings_of scenario_2) "B" "A"
  ∧ ∃ di tournament,
      resolve_equality (aggregate (rankings_of scenario_2)) = Some di
      ∧ reduce_tournament di = Some tournament
      ∧ (wins (rankings_of scenario_2) "A" "B" + wins (rankings_of scenario_2) "B" "A"
         + ties (rankings_of scenario_2) "A" "B" + ties (rankings_of scenario_2) "B" "A"
         ≤ 2 * (ties (rankings_of scenario_2) "A" "B"
                + ties (rankings_of scenario_2) "B" "A") →
         di !! ("A", "B") = None ∧ di !! ("B", "A") = None
         ∧ tournament !! ("A", "B") = None ∧ tournament !! ("B", "A") = None)
      ∧ (2 * (ties (rankings_of scenario_2) "A" "B"
              + ties (rankings_of scenario_2) "B" "A")
         < wins (rankings_of scenario_2) "A" "B" + wins (rankings_of scenario_2) "B" "A"
           + ties (rankings_of scenario_2) "A" "B" + ties (rankings_of scenario_2) "B" "A" →
         di !! ("A", "B") = di_edges (aggregate (rankings_of scenario_2)) !! ("A", "B")
         ∧ di !! ("B", "A") = di_edges (aggregate (rankings_of scenario_2)) !! ("B", "A")).
Proof.
  split; [vm_compute; discriminate|].
  apply (equality_majority_deletes_edges (rankings_of scenario_2) "A" "B").
  vm_compute; discriminate.
Defined.

Lemma net_weight_one_direction (di : gmap edge Z) (a b : string) :
  ¬ (is_Some (net_weight di (a, b)) ∧ is_Some (net_weight di (b, a))).
Proof.
  unfold net_weight. simpl. intros [[x Hx] [y Hy]].
  destruct (di !! (a, b)) as [u|]; [|done].
  destruct (di !! (b, a)) as [v|]; [|done].
  destruct (Z.ltb_spec v u); [|done]. destruct (Z.ltb_spec u v); [lia|done].
Qed.

Lemma net_weight_positive (di : gmap edge Z) (k : edge) (w : Z) :
  positive_counts di → net_weight di k = Some w → 0 < w.
Proof.
  intros Hpos. unfold net_weight.
  destruct (di !! k) as [x|] eqn:Hx; [|done].
  apply Hpos in Hx. simpl in Hx.
  destruct (di !! (k.2, k.1)) as [y|]; [|intros [= <-]; lia].
  destruct (Z.ltb_spec y x); [|done]. intros [= <-]. lia.
Qed.

Lemma net_weight_reduced_map (di t : gmap edge Z) :
  positive_counts di → (∀ k, t !! k = net_weight di k) → reduced t.
Proof.
  intros Hpos Ht [a b] w Hw. split.
  - rewrite Ht in Hw. by eapply net_weight_positive.
  - simpl. destruct (t !! (b, a)) as [v|] eqn:Hv; [|done].
    exfalso. apply (net_weight_one_direction di a b). rewrite <- !Ht. eauto.
Qed.

(** C7.  The tournament holds at most one of the edges [(a,b)] and [(b,a)],
    every weight in it is positive, and a pair that had both directions keeps
    the larger one with the difference as weight, or nothing on equal counts. *)
Theorem tournament_one_direction_positive (ranking_list : list Ranking) :
  ∃ di tournament,
    resolve_equality (aggregate ranking_list) = Some di
    ∧ reduce_tournament di = Some tournament
    ∧ reduced tournament
    ∧ ∀ a b,
        ¬ (is_Some (tournament !! (a, b)) ∧ is_Some (tournament !! (b, a)))
        ∧ (∀ w, tournament !! (a, b) = Some w → 0 < w)
        ∧ (∀ x y, di !! (a, b) = Some x → di !! (b, a) = Some y →
             (y < x → tournament !! (a, b) = Some (x - y) ∧ tournament !! (b, a) = None)
             ∧ (x < y → tournament !! (b, a) = Some (y - x) ∧ tournament !! (a, b) = None)
             ∧ (x = y → tournament !! (a, b) = None ∧ tournament !! (b, a) = None)).
Proof.
  destruct (pipeline_ok ranking_list) as (di & t & Hdi & Ht & Hpos & _ & Hnet).
  exists di, t. split; [done|]. split; [done|].
  split; [by eapply net_weight_reduced_map|].
  intros a b. split; [|split].
  - rewrite !Hnet. apply net_weight_one_direction.
  - intros w. rewrite Hnet. by apply net_weight_positive.
  - intros x y Hx Hy. rewrite !Hnet. unfold net_weight. simpl. rewrite Hx, Hy.
    destruct (Z.ltb_spec y x); destruct (Z.ltb_spec x y); repeat split; intros; (done || lia).
Qed.

(** C8.  On an edge map that is already reduced, one where every stored
    edge has a positive weight and its reverse is not stored, the tournament
    filter returns the same map. *)
Theorem reduce_tournament_idempotent (E : gmap edge Z) :
  reduced E → reduce_tournament E = Some E.
Proof.
  intros HE.
  destruct (reduce_tournament_ok E) as (t & Ht & Hlook).
  { intros k w Hw. destruct (HE _ _ Hw) as [? _]. simpl. lia. }
  rewrite Ht. f_equal. apply map_eq. intros k.
  by rewrite Hlook, net_weight_reduced.
Qed.

Lemma reduce_tournament_idempotent_witness :
  reduced edges_cycle ∧ reduce_tournament edges_cycle = Some edges_cycle.
Proof.
  assert (H : reduced edges_cycle) by (refine (bool_decide_unpack _ _); vm_compute; exact I).
  split; [exact H|]. apply (reduce_tournament_idempotent edges_cycle H).
Defined.

(** C9 (amended).  [rank_to_int] raises exactly on a symbol outside
    [<], [>], [=].  Building a [Ranking] raises exactly when the segment
    identifier is not an integer literal or the symbol is outside the three;
    reading a file ends with the error of a row exactly when one of its
    rows raises. *)
Theorem parse_raises_iff (linesep src_id sys1_id sys2_id rank : string)
    (rows : list answer_row) :
  (is_raise (rank_to_int rank) ↔ rank ∉ valid_symbols)
  ∧ (is_raise (Ranking_init src_id sys1_id sys2_id rank)
     ↔ is_raise (py_int src_id) ∨ rank ∉ valid_symbols)
  ∧ ((∃ e, parse_answer_file_logged linesep rows = inl (RowError e))
     ↔ Exists (λ row, is_raise (ranking_of_row row)) rows).
Proof.
  split; [apply rank_to_int_raise|].
  split; [apply Ranking_init_raise|].
  rewrite <- (parse_rows_raise rows ∅). unfold parse_answer_file_logged.
  pose proof (read_loop_spec rows 0 None ∅) as Hspec.
  destruct (read_loop rows 0 None ∅) as [[[i|] m']|e].
  - destruct Hspec as [-> _]. split; [by intros [e [=]]|done].
  - destruct Hspec as [-> _]. split; [by intros [e [=]]|done].
  - rewrite Hspec. split; [done|]. intros _. by exists e.
Qed.

(** C9, as stated, fails: a record with the valid symbol [<] and a segment
    identifier that is no integer raises. *)
Lemma valid_symbol_bad_segment_raises :
  rank_to_int "<" = Ok (-1)
  ∧ Ranking_init "s1" "A" "B" "<" = Raise ValueError.
Proof. split; reflexivity. Qed.

(** C10.  The tie vector holds [False] at position 0, so the first row of a
    non-empty ranking has rank 1, and every rank is at least 1. *)
Theorem first_row_has_rank_one (ranking : list string) (edges : gmap edge Z) :
  head (mark_ties ranking edges) = (λ _, false) <$> head ranking
  ∧ ∃ rows, make_rows ranking (mark_ties ranking edges) = Some rows
      ∧ head (row_rank <$> rows) = (λ _, 1) <$> head ranking
      ∧ Forall (λ r, 1 ≤ row_rank r) rows.
Proof.
  split.
  - pose proof (mark_ties_first ranking edges) as Hnt.
    pose proof (mark_ties_length ranking edges) as Hlen.
    rewrite <- head_lookup in Hnt.
    destruct ranking as [|v ranking]; destruct (mark_ties _ edges) as [|[] ties];
      simpl in *; done.
  - destruct (make_rows_mark_ties ranking edges) as (rows & Hrows & _ & Hall & Hhead).
    exists rows. done.
Qed.

(** ** Further properties *)

Lemma foldl_tally_counts (ranking_list : list Ranking) (t : tallies) (a b : string) :
  counter_get (di_edges (foldl tally t ranking_list)) (a, b)
  = counter_get (di_edges t) (a, b)
    + Z.of_nat (length (filter (λ r, sysA r = a ∧ sysB r = b ∧ rank r ≠ 0) ranking_list))
  ∧ counter_get (eq_edges (foldl tally t ranking_list)) (a, b)
    = counter_get (eq_edges t) (a, b)
      + Z.of_nat (length (filter (λ r, sysA r = a ∧ sysB r = b ∧ rank r = 0) ranking_list)).
Proof.
  revert t. induction ranking_list as [|r rl IH]; intros t; simpl; [lia|].
  destruct (IH (tally t r)) as [-> ->]. rewrite !filter_cons. unfold tally. simpl.
  destruct (Z.eqb_spec (rank r) 0) as [Hr|Hr]; rewrite !counter_get_incr;
    repeat (destruct (decide _)); simpl; simplify_eq; try lia;
    exfalso; intuition congruence.
Qed.

(** The tallies are the numbers of judgments: [wins] counts the judgments
    in which [a] is better than [b], [ties] the equalities stored as
    [(a, b)]. *)
Theorem aggregate_counts_judgments (ranking_list : list Ranking) (a b : string) :
  wins ranking_list a b
  = Z.of_nat (length (filter (λ r, sysA r = a ∧ sysB r = b ∧ rank r ≠ 0) ranking_list))
  ∧ ties ranking_list a b
    = Z.of_nat (length (filter (λ r, sysA r = a ∧ sysB r = b ∧ rank r = 0) ranking_list)).
Proof.
  unfold wins, ties, aggregate.
  destruct (foldl_tally_counts ranking_list (mkTallies ∅ ∅ ∅ ∅) a b) as [-> ->].
  done.
Qed.

Lemma mark_ties_no_zero (ranking : list string) (edges : gmap edge Z) :
  positive_counts edges → mark_ties ranking edges = replicate (length ranking) false.
Proof.
  intros Hpos. apply list_eq. intros i.
  destruct (mark_ties ranking edges !! i) as [[]|] eqn:Hi.
  - apply mark_ties_lookup in Hi as [_ (? & ? & _ & _ & Hw)].
    apply Hpos in Hw. simpl in Hw. lia.
  - apply lookup_lt_Some in Hi. rewrite mark_ties_length in Hi.
    symmetry. by apply lookup_replicate.
  - apply lookup_ge_None in Hi. rewrite mark_ties_length in Hi.
    symmetry. apply lookup_ge_None. by rewrite length_replicate.
Qed.

Lemma make_rows_from_no_ties (id_list : list string) (i : nat) (last_rank : Z) (n : nat)
    (rows : list RankRow) :
  make_rows_from i last_rank id_list (replicate n false) = Some rows →
  row_rank <$> rows = (λ j, Z.of_nat j + 1) <$> seq i (length rows).
Proof.
  revert i last_rank rows. induction id_list as [|x rest IH]; intros i last_rank rows; simpl.
  - by intros [= <-].
  - destruct (replicate n false !! i) as [tie|] eqn:Hi; simpl; [|done].
    apply lookup_replicate in Hi as [-> _].
    destruct (make_rows_from _ _ rest _) as [rows'|] eqn:Hrows; simpl; [|done].
    intros [= <-]. simpl. f_equal. by eapply IH.
Qed.

(** In [sort_tgts] no position is ever flagged: the working edge set holds
    counts of at least 1, so the rows carry the ranks 1, 2, ... in order. *)
Theorem sort_tgts_ranks_are_positions
    (lopez_solver : gmap edge Z → list string → option (list string))
    (ranking_list : list Ranking) (rows : list RankRow) :
  sort_tgts lopez_solver ranking_list = Some rows →
  row_rank <$> rows = (λ j, Z.of_nat j + 1) <$> seq 0 (length rows).
Proof.
  unfold sort_tgts.
  destruct (pipeline_ok ranking_list) as (di & t & -> & Ht & Hpos & _). simpl.
  rewrite Ht. simpl.
  destruct (lopez_solver _ _) as [ranking|]; simpl; [|done].
  destruct (decide _); [|done].
  rewrite (mark_ties_no_zero _ _ Hpos). apply make_rows_from_no_ties.
Qed.

Lemma sort_tgts_ranks_are_positions_witness :
  sort_tgts (run_lopez_mfas_solver in_order) (rankings_of scenario_2)
  = Some [mkRankRow None "B" 1; mkRankRow None "A" 2]
  ∧ row_rank <$> [mkRankRow None "B" 1; mkRankRow None "A" 2]
    = (λ j, Z.of_nat j + 1) <$> seq 0 (length [mkRankRow None "B" 1; mkRankRow None "A" 2]).
Proof.
  assert (H : sort_tgts (run_lopez_mfas_solver in_order) (rankings_of scenario_2)
              = Some [mkRankRow None "B" 1; mkRankRow None "A" 2])
    by (vm_compute; reflexivity).
  split; [exact H|].
  apply (sort_tgts_ranks_are_positions (run_lopez_mfas_solver in_order)
           (rankings_of scenario_2) _ H).
Defined.

(** [run_lopez_mfas_solver] returns a ranking on every vertex list but the
    empty one, on which it raises; when no vertex is the empty string the
    ranking lists every vertex once. *)
Theorem solver_lists_every_vertex (itervalues : agenda_t → list hypothesis)
    (E : gmap edge Z) (V : list string) :
  (∀ agenda, itervalues agenda ≡ₚ agenda.*2) →
  (is_Some (run_lopez_mfas_solver itervalues E V) ↔ V ≠ [])
  ∧ (EmptyString ∉ V →
     ∀ ranking, run_lopez_mfas_solver itervalues E V = Some ranking → ranking ≡ₚ V).
Proof.
  intros Hperm. split; [split|].
  - intros [ranking Hrun] ->. unfold run_lopez_mfas_solver in Hrun.
    by rewrite search_nil in Hrun.
  - intros Hne.
    destruct (run_lopez_mfas_solver_returns itervalues E V Hperm Hne) as (r & Hr & _).
    by exists r.
  - intros HV ranking Hrun.
    assert (Hne : V ≠ []).
    { intros ->. unfold run_lopez_mfas_solver in Hrun. by rewrite search_nil in Hrun. }
    destruct (run_lopez_mfas_solver_returns itervalues E V Hperm Hne)
      as (r & Hr & _ & _ & Hp).
    assert (r = ranking) as -> by congruence. by apply Hp.
Qed.

Lemma solver_lists_every_vertex_witness :
  (∀ agenda, in_order agenda ≡ₚ agenda.*2)
  ∧ (is_Some (run_lopez_mfas_solver in_order edges_cycle ["A"; "B"; "C"])
     ↔ ["A"; "B"; "C"] ≠ [])
  ∧ (EmptyString ∉ ["A"; "B"; "C"] →
     ∀ ranking, run_lopez_mfas_solver in_order edges_cycle ["A"; "B"; "C"] = Some ranking
                → ranking ≡ₚ ["A"; "B"; "C"]).
Proof.
  split; [exact in_order_perm|].
  apply (solver_lists_every_vertex in_order edges_cycle ["A"; "B"; "C"] in_order_perm).
Defined.

Lemma make_rows_from_adjacent (ties : list bool) (id_list : list string) (i : nat)
    (last_rank : Z) (rows : list RankRow) :
  make_rows_from i last_rank id_list ties = Some rows →
  last_rank ≤ Z.of_nat i →
  (∀ r, head rows = Some r →
     row_rank r ≤ Z.of_nat i + 1 ∧ last_rank ≤ row_rank r
     ∧ (row_rank r = last_rank ↔ ties !! i = Some true))
  ∧ (∀ j r r', rows !! j = Some r → rows !! S j = Some r' →
       row_rank r ≤ row_rank r'
       ∧ (row_rank r' = row_rank r ↔ ties !! (i + S j)%nat = Some true)).
Proof.
  revert i last_rank rows. induction id_list as [|x rest IH]; intros i last_rank rows; simpl.
  - intros [= <-] _. split; [by intros r [=]|].
    intros j r r' Hr. by rewrite lookup_nil in Hr.
  - destruct (ties !! i) as [tie|] eqn:Hi; simpl; [|done].
    destruct (make_rows_from _ _ rest ties) as [rows'|] eqn:Hrows; simpl; [|done].
    intros [= <-] Hlast.
    destruct (IH _ _ _ Hrows) as [Hhead Hadj]; [destruct tie; lia|].
    split.
    + intros r [= <-]. simpl. destruct tie; (split; [lia|]; split; [lia|]).
      * done.
      * split; [lia|done].
    + intros [|j] r r'; simpl.
      * intros [= <-] Hr'. rewrite <- head_lookup in Hr'.
        destruct (Hhead _ Hr') as (_ & Hle & Hiff). simpl in *.
        replace (i + 1)%nat with (S i) by lia. done.
      * intros Hr Hr'. replace (i + S (S j))%nat with (S i + S j)%nat by lia.
        by apply Hadj.
Qed.

(** Along the rows the ranks never decrease, and a row repeats the rank of
    the row before it exactly when its position is flagged in the tie
    vector. *)
Theorem ranks_nondecreasing (id_list : list string) (ties : list bool)
    (rows : list RankRow) (j : nat) (r r' : RankRow) :
  make_rows id_list ties = Some rows →
  rows !! j = Some r → rows !! S j = Some r' →
  row_rank r ≤ row_rank r'
  ∧ (row_rank r' = row_rank r ↔ ties !! S j = Some true).
Proof.
  intros Hrows Hr Hr'.
  destruct (make_rows_from_adjacent ties id_list 0 0 rows Hrows) as [_ Hadj]; [done|].
  by apply (Hadj j).
Qed.

Lemma ranks_nondecreasing_witness :
  make_rows ["A"; "B"; "C"] [false; true; false]
  = Some [mkRankRow None "A" 1; mkRankRow None "B" 1; mkRankRow None "C" 3]
  ∧ [mkRankRow None "A" 1; mkRankRow None "B" 1; mkRankRow None "C" 3] !! 0%nat
    = Some (mkRankRow None "A" 1)
  ∧ [mkRankRow None "A" 1; mkRankRow None "B" 1; mkRankRow None "C" 3] !! 1%nat
    = Some (mkRankRow None "B" 1)
  ∧ row_rank (mkRankRow None "A" 1) ≤ row_rank (mkRankRow None "B" 1)
  ∧ (row_rank (mkRankRow None "B" 1) = row_rank (mkRankRow None "A" 1)
     ↔ [false; true; false] !! 1%nat = Some true).
Proof.
  split; [reflexivity|]. split; [reflexivity|]. split; [reflexivity|].
  apply (ranks_nondecreasing ["A"; "B"; "C"] [false; true; false]
           [mkRankRow None "A" 1; mkRankRow None "B" 1; mkRankRow None "C" 3] 0
           (mkRankRow None "A" 1) (mkRankRow None "B" 1)
           eq_refl eq_refl eq_refl).
Defined.

(** Filtering the tournament of [sort_tgts] a second time changes nothing. *)
Theorem reduce_tournament_twice (ranking_list : list Ranking) :
  ∃ di tournament,
    resolve_equality (aggregate ranking_list) = Some di
    ∧ reduce_tournament di = Some tournament
    ∧ reduce_tournament tournament = Some tournament.
Proof.
  destruct (pipeline_ok ranking_list) as (di & t & Hdi & Ht & Hpos & _ & Hnet).
  exists di, t. split; [done|]. split; [done|].
  pose proof (net_weight_reduced_map di t Hpos Hnet) as Hred.
  destruct (reduce_tournament_ok t) as (t' & Ht' & Hlook).
  { intros k w Hw. destruct (Hred _ _ Hw) as [? _]. simpl. lia. }
  rewrite Ht'. f_equal. apply map_eq. intros k.
  by rewrite Hlook, net_weight_reduced.
Qed.

(** ** Judgment records *)

(** A record that parses is stored with rank 0 or 1, rank 0 exactly for the
    symbol [=]; with [<] the first system is stored as the better one, and
    with [>] and with [=] the second. *)
Theorem Ranking_init_normal_form (src sys1_id sys2_id symbol : string) (r : Ranking) :
  Ranking_init src sys1_id sys2_id symbol = Ok r →
  py_int src = Ok (src_id r)
  ∧ (rank r = 0 ∨ rank r = 1)
  ∧ (rank r = 0 ↔ symbol = "=")
  ∧ (symbol = "<" → sysA r = sys1_id ∧ sysB r = sys2_id)
  ∧ (symbol ≠ "<" → sysA r = sys2_id ∧ sysB r = sys1_id).
Proof.
  unfold Ranking_init, rank_to_int.
  destruct (py_int src) as [n|e]; simpl; [|done].
  destruct (String.eqb_spec symbol "<") as [->|H1]; simpl.
  { intros [= <-]. simpl. repeat split; auto; done. }
  destruct (String.eqb_spec symbol ">") as [->|H2]; simpl.
  { intros [= <-]. simpl. repeat split; auto; done. }
  destruct (String.eqb_spec symbol "=") as [->|H3]; simpl; [|done].
  intros [= <-]. simpl. repeat split; auto; done.
Qed.

Lemma Ranking_init_normal_form_witness :
  Ranking_init "7" "A" "B" ">" = Ok (mkRanking 7 "B" "A" 1)
  ∧ py_int "7" = Ok (src_id (mkRanking 7 "B" "A" 1))
  ∧ (rank (mkRanking 7 "B" "A" 1) = 0 ∨ rank (mkRanking 7 "B" "A" 1) = 1)
  ∧ (rank (mkRanking 7 "B" "A" 1) = 0 ↔ ">" = "=")
  ∧ (">" = "<" → sysA (mkRanking 7 "B" "A" 1) = "A" ∧ sysB (mkRanking 7 "B" "A" 1) = "B")
  ∧ (">" ≠ "<" → sysA (mkRanking 7 "B" "A" 1) = "B" ∧ sysB (mkRanking 7 "B" "A" 1) = "A").
Proof.
  split; [reflexivity|].
  apply (Ranking_init_normal_form "7" "A" "B" ">" (mkRanking 7 "B" "A" 1) eq_refl).
Defined.

(** A judgment and its mirror image are the same record: [a < b] and
    [b > a] build equal rankings, and raise alike. *)
Theorem mirrored_judgments_coincide (src a b : string) :
  Ranking_init src a b "<" = Ranking_init src b a ">".
Proof.
  unfold Ranking_init. destruct (py_int src) as [n|e]; reflexivity.
Qed.

(** ** Reading the answer file *)

Lemma parse_rows_groups (rows : list answer_row) (m m' : gmap Z (list Ranking)) :
  parse_rows rows m = Ok m' →
  ∃ rankings, rankings_read rows rankings
    ∧ ∀ k, default [] (m' !! k) = default [] (m !! k) ++ segment rankings k
           ∧ (m' !! k = None ↔ m !! k = None ∧ segment rankings k = []).
Proof.
  revert m. induction rows as [|row rows IH]; intros m; simpl.
  - intros [= <-]. exists []. split; [constructor|]. intros k.
    rewrite app_nil_r. split; [done|]. unfold segment. rewrite filter_nil. tauto.
  - destruct (ranking_of_row row) as [ranking|e] eqn:Hrow; simpl; [|done].
    intros Hrest. destruct (IH _ Hrest) as (rankings & Hread & Hk).
    exists (ranking :: rankings). split; [by constructor|].
    intros k. destruct (Hk k) as [Hd Hn]. unfold segment in *. rewrite filter_cons.
    destruct (decide (src_id ranking = k)) as [<-|Hne].
    + rewrite lookup_insert_eq in Hd, Hn. simpl in Hd. rewrite Hd, <- app_assoc.
      split; [done|]. rewrite Hn. split; [by intros [[=] _]|by intros [_ [=]]].
    + rewrite lookup_insert_ne in Hd, Hn by done. done.
Qed.

(** When the file is read, [src2rank] holds under every segment identifier
    the rankings of that segment in file order, and no key without one. *)
Theorem src2rank_groups_by_segment (linesep : string) (rows : list answer_row)
    (src2rank : gmap Z (list Ranking)) (message : string) :
  parse_answer_file_logged linesep rows = inr (src2rank, message) →
  ∃ rankings, rankings_read rows rankings
    ∧ ∀ k, default [] (src2rank !! k) = segment rankings k
           ∧ (src2rank !! k = None ↔ segment rankings k = []).
Proof.
  unfold parse_answer_file_logged.
  pose proof (read_loop_spec rows 0 None ∅) as Hspec.
  destruct (read_loop rows 0 None ∅) as [[[i|] m']|e]; [|done|done].
  intros [= <- _]. destruct Hspec as [Hparse _].
  destruct (parse_rows_groups _ _ _ Hparse) as (rankings & Hread & Hk).
  exists rankings. split; [done|]. intros k. destruct (Hk k) as [Hd Hn].
  rewrite lookup_empty in Hd, Hn. simpl in Hd. split; [done|]. rewrite Hn. tauto.
Qed.

Lemma src2rank_groups_by_segment_witness :
  parse_answer_file_logged "/" (take 1 scenario_2)
  = inr ({[ 1 := [mkRanking 1 "B" "A" 0] ]}, "Read: 0 rows/")
  ∧ ∃ rankings, rankings_read (take 1 scenario_2) rankings
      ∧ ∀ k, default [] (({[ 1 := [mkRanking 1 "B" "A" 0] ]} : gmap Z (list Ranking)) !! k)
             = segment rankings k
             ∧ (({[ 1 := [mkRanking 1 "B" "A" 0] ]} : gmap Z (list Ranking)) !! k = None
                ↔ segment rankings k = []).
Proof.
  split; [vm_compute; reflexivity|].
  apply (src2rank_groups_by_segment "/" (take 1 scenario_2)
           {[ 1 := [mkRanking 1 "B" "A" 0] ]} "Read: 0 rows/").
  vm_compute; reflexivity.
Defined.

(** A file without rows raises at the message that reports the count, and
    only such a file does; a row that raises ends the run with its error;
    otherwise the loop's dictionary is returned and the message reports the
    index of the last row, one less than the number of rows read. *)
Theorem parse_answer_file_outcomes (linesep : string) (rows : list answer_row) :
  (parse_answer_file_logged linesep rows = inl UnboundLocalError ↔ rows = [])
  ∧ (∀ e, parse_answer_file_logged linesep rows = inl (RowError e)
          ↔ parse_rows rows ∅ = Raise e)
  ∧ (∀ src2rank message,
       parse_answer_file_logged linesep rows = inr (src2rank, message)
       ↔ rows ≠ [] ∧ parse_rows rows ∅ = Ok src2rank
         ∧ message = "Read: " +:+ pretty (length rows - 1)%nat +:+ " rows" +:+ linesep).
Proof.
  unfold parse_answer_file_logged.
  pose proof (read_loop_spec rows 0 None ∅) as Hspec.
  destruct (read_loop rows 0 None ∅) as [[i' m']|e].
  - destruct Hspec as [Hparse ->]. rewrite Hparse. destruct rows as [|row rows].
    + split; [done|]. split; [done|]. intros src2rank message. split; [done|]. by intros [? _].
    + split; [done|]. split; [done|]. intros src2rank message. simpl.
      rewrite Nat.sub_0_r. split.
      * intros [= <- <-]. done.
      * intros (_ & [= <-] & ->). done.
  - rewrite Hspec. assert (rows ≠ []) by (intros ->; done).
    split; [done|]. split.
    + intros e'. split; intros [= ->]; done.
    + intros src2rank message. split; [done|]. by intros (_ & [=] & _).
Qed.

(** ** Rows and ranks *)

Lemma make_rows_from_None (ties : list bool) (id_list : list string) (i : nat)
    (last_rank : Z) :
  (i ≤ length ties)%nat →
  make_rows_from i last_rank id_list ties = None
  ↔ (length ties < i + length id_list)%nat.
Proof.
  revert i last_rank. induction id_list as [|x rest IH]; intros i last_rank Hi; simpl.
  - split; [done|lia].
  - destruct (ties !! i) as [tie|] eqn:Hl; simpl.
    + apply lookup_lt_Some in Hl as Hlt.
      specialize (IH (S i) (if tie then last_rank else Z.of_nat i + 1) ltac:(lia)).
      destruct (make_rows_from (S i) _ rest ties) as [rows|]; simpl.
      * split; [done|]. intros Hlen. exfalso.
        assert (Hn : (length ties < S i + length rest)%nat) by lia.
        apply IH in Hn. done.
      * split; [|done]. intros _. pose proof (proj1 IH eq_refl). lia.
    + apply lookup_ge_None in Hl. split; [lia|done].
Qed.

(** [make_rows] raises, at an index past the end of the tie vector, exactly
    when the tie vector is shorter than the list of identifiers. *)
Theorem make_rows_index_error (id_list : list string) (tie_with_prev : list bool) :
  make_rows id_list tie_with_prev = None
  ↔ (length tie_with_prev < length id_list)%nat.
Proof.
  unfold make_rows. rewrite make_rows_from_None by lia. done.
Qed.

Lemma make_rows_from_rank (ties : list bool) (id_list : list string) (i : nat)
    (last_rank : Z) (rows : list RankRow) (j : nat) (r : RankRow) :
  make_rows_from i last_rank id_list ties = Some rows →
  rows !! j = Some r →
  (∃ k, (i ≤ k ≤ i + j)%nat ∧ ties !! k = Some false
        ∧ (∀ m, (k < m ≤ i + j)%nat → ties !! m = Some true)
        ∧ row_rank r = Z.of_nat k + 1)
  ∨ ((∀ m, (i ≤ m ≤ i + j)%nat → ties !! m = Some true) ∧ row_rank r = last_rank).
Proof.
  revert i last_rank rows j.
  induction id_list as [|x rest IH]; intros i last_rank rows j; simpl.
  - intros [= <-] Hr. by rewrite lookup_nil in Hr.
  - destruct (ties !! i) as [tie|] eqn:Hi; simpl; [|done].
    destruct (make_rows_from _ _ rest ties) as [rows'|] eqn:Hrows; simpl; [|done].
    intros [= <-]. destruct j as [|j]; simpl.
    + intros [= <-]. simpl. destruct tie.
      * right. split; [|done]. intros m Hm. by replace m with i by lia.
      * left. exists i. split; [lia|]. split; [done|]. split; [intros m Hm; lia|done].
    + intros Hr. destruct (IH _ _ _ _ Hrows Hr) as [(k & Hk & Hf & Ht & Hrk)|[Ht Hrk]].
      * left. exists k. split; [lia|]. split; [done|]. split; [|done].
        intros m Hm. apply Ht. lia.
      * destruct tie.
        -- right. split; [|done]. intros m Hm.
           destruct (decide (m = i)) as [->|]; [done|]. apply Ht. lia.
        -- left. exists i. split; [lia|]. split; [done|]. split; [|done].
           intros m Hm. apply Ht. lia.
Qed.

(** The rank of a row is the 1-based position of the first row of its run
    of ties: the nearest position at or before it that is not flagged, plus
    one; a row whose positions are all flagged back to the first has rank 0. *)
Theorem make_rows_rank_of_tie_run (id_list : list string) (tie_with_prev : list bool)
    (rows : list RankRow) (j : nat) (r : RankRow) :
  make_rows id_list tie_with_prev = Some rows →
  rows !! j = Some r →
  (∃ k, (k ≤ j)%nat ∧ tie_with_prev !! k = Some false
        ∧ (∀ m, (k < m ≤ j)%nat → tie_with_prev !! m = Some true)
        ∧ row_rank r = Z.of_nat k + 1)
  ∨ ((∀ m, (m ≤ j)%nat → tie_with_prev !! m = Some true) ∧ row_rank r = 0).
Proof.
  intros Hrows Hr.
  destruct (make_rows_from_rank _ _ _ _ _ _ _ Hrows Hr) as [(k & Hk & Hf & Ht & Hrk)|[Ht Hrk]].
  - left. exists k. split; [lia|]. split; [done|]. split; [|done].
    intros m Hm. apply Ht. lia.
  - right. split; [|done]. intros m Hm. apply Ht. lia.
Qed.

Lemma make_rows_rank_of_tie_run_witness :
  make_rows ["a"; "b"; "c"; "d"] [false; true; true; false]
  = Some [mkRankRow None "a" 1; mkRankRow None "b" 1; mkRankRow None "c" 1;
          mkRankRow None "d" 4]
  ∧ [mkRankRow None "a" 1; mkRankRow None "b" 1; mkRankRow None "c" 1;
     mkRankRow None "d" 4] !! 2%nat = Some (mkRankRow None "c" 1)
  ∧ ((∃ k, (k ≤ 2)%nat ∧ [false; true; true; false] !! k = Some false
           ∧ (∀ m, (k < m ≤ 2)%nat → [false; true; true; false] !! m = Some true)
           ∧ row_rank (mkRankRow None "c" 1) = Z.of_nat k + 1)
     ∨ ((∀ m, (m ≤ 2)%nat → [false; true; true; false] !! m = Some true)
        ∧ row_rank (mkRankRow None "c" 1) = 0)).
Proof.
  split; [reflexivity|]. split; [reflexivity|].
  apply (make_rows_rank_of_tie_run ["a"; "b"; "c"; "d"] [false; true; true; false]
           [mkRankRow None "a" 1; mkRankRow None "b" 1; mkRankRow None "c" 1;
            mkRankRow None "d" 4] 2 (mkRankRow None "c" 1) eq_refl eq_refl).
Defined.

Lemma make_rows_from_no_src_id (ties : list bool) (id_list : list string) (i : nat)
    (last_rank : Z) (rows : list RankRow) :
  make_rows_from i last_rank id_list ties = Some rows →
  Forall (λ r, row_src_id r = None) rows.
Proof.
  revert i last_rank rows. induction id_list as [|x rest IH]; intros i last_rank rows; simpl.
  - intros [= <-]. constructor.
  - destruct (ties !! i) as [tie|]; simpl; [|done].
    destruct (make_rows_from _ _ rest ties) as [rows'|] eqn:Hrows; simpl; [|done].
    intros [= <-]. constructor; [done|]. by eapply IH.
Qed.

(** ** The rows of one segment *)

(** Whatever the solver, the rows [sort_tgts] returns are one for each
    vertex of the segment, in the order of the solver's ranking, with the
    segment identifier left unset. *)
Theorem sort_tgts_one_row_per_vertex
    (lopez_solver : gmap edge Z → list string → option (list string))
    (ranking_list : list Ranking) (rows : list RankRow) :
  sort_tgts lopez_solver ranking_list = Some rows →
  length rows = size (vertices (aggregate ranking_list))
  ∧ Forall (λ r, row_src_id r = None) rows
  ∧ ∃ di tournament,
      resolve_equality (aggregate ranking_list) = Some di
      ∧ reduce_tournament di = Some tournament
      ∧ lopez_solver tournament (elements (vertices (aggregate ranking_list)))
        = Some (sys_id <$> rows).
Proof.
  unfold sort_tgts.
  destruct (pipeline_ok ranking_list) as (di & t & Hdi & Ht & _).
  rewrite Hdi. simpl. rewrite Ht. simpl.
  destruct (lopez_solver _ _) as [ranking|] eqn:Hsolver; simpl; [|done].
  destruct (decide _) as [Hlen|]; [|done]. intros Hrows.
  pose proof (make_rows_from_sys_id _ _ _ _ _ Hrows) as Hids.
  split; [|split].
  - rewrite <- (length_fmap sys_id), Hids, Hlen. done.
  - by eapply make_rows_from_no_src_id.
  - exists di, t. by rewrite Hids.
Qed.

Lemma sort_tgts_one_row_per_vertex_witness :
  sort_tgts (run_lopez_mfas_solver in_order) (rankings_of scenario_2)
  = Some [mkRankRow None "B" 1; mkRankRow None "A" 2]
  ∧ length [mkRankRow None "B" 1; mkRankRow None "A" 2]
    = size (vertices (aggregate (rankings_of scenario_2)))
  ∧ Forall (λ r, row_src_id r = None) [mkRankRow None "B" 1; mkRankRow None "A" 2]
  ∧ ∃ di tournament,
      resolve_equality (aggregate (rankings_of scenario_2)) = Some di
      ∧ reduce_tournament di = Some tournament
      ∧ run_lopez_mfas_solver in_order tournament
          (elements (vertices (aggregate (rankings_of scenario_2))))
        = Some (sys_id <$> [mkRankRow None "B" 1; mkRankRow None "A" 2]).
Proof.
  assert (H : sort_tgts (run_lopez_mfas_solver in_order) (rankings_of scenario_2)
              = Some [mkRankRow None "B" 1; mkRankRow None "A" 2])
    by (vm_compute; reflexivity).
  split; [exact H|].
  apply (sort_tgts_one_row_per_vertex (run_lopez_mfas_solver in_order)
           (rankings_of scenario_2) _ H).
Defined.

Lemma counter_incr_comm (c : gmap edge Z) (k1 k2 : edge) :
  counter_incr (counter_incr c k1) k2 = counter_incr (counter_incr c k2) k1.
Proof.
  apply map_eq. intros k. unfold counter_incr.
  rewrite !lookup_insert. unfold counter_get. rewrite !lookup_insert.
  repeat (destruct (decide _)); simplify_eq; simpl; try done; f_equal; lia.
Qed.

Lemma tally_comm (t : tallies) (r1 r2 : Ranking) :
  tally (tally t r1) r2 = tally (tally t r2) r1.
Proof.
  unfold tally. simpl.
  destruct (rank r1 =? 0), (rank r2 =? 0); f_equal;
    first [ done
          | apply counter_incr_comm
          | apply set_eq; intros z; rewrite !elem_of_union; tauto ].
Qed.

Lemma aggregate_permutation (rl rl' : list Ranking) :
  rl ≡ₚ rl' → aggregate rl = aggregate rl'.
Proof.
  unfold aggregate. generalize (mkTallies ∅ ∅ ∅ ∅).
  intros t Hp. revert t. induction Hp as [|x l l' _ IH|x y l|l1 l2 l3 _ IH1 _ IH2];
    intros t; simpl.
  - done.
  - apply IH.
  - by rewrite tally_comm.
  - by rewrite IH1.
Qed.

(** The tallies of a segment, its vertex set and its tournament do not
    depend on the order of its judgments in the file. *)
Theorem tallies_judgment_order (ranking_list ranking_list' : list Ranking) :
  ranking_list ≡ₚ ranking_list' →
  aggregate ranking_list = aggregate ranking_list'
  ∧ resolve_equality (aggregate ranking_list) ≫= reduce_tournament
    = resolve_equality (aggregate ranking_list') ≫= reduce_tournament.
Proof.
  intros Hp. by rewrite (aggregate_permutation _ _ Hp).
Qed.

Lemma tallies_judgment_order_witness :
  rankings_of scenario_2 ≡ₚ rev (rankings_of scenario_2)
  ∧ aggregate (rankings_of scenario_2) = aggregate (rev (rankings_of scenario_2))
  ∧ resolve_equality (aggregate (rankings_of scenario_2)) ≫= reduce_tournament
    = resolve_equality (aggregate (rev (rankings_of scenario_2))) ≫= reduce_tournament.
Proof.
  split; [apply Permutation_rev|].
  apply (tallies_judgment_order (rankings_of scenario_2) (rev (rankings_of scenario_2))
           (Permutation_rev (rankings_of scenario_2))).
Defined.

(** ** The order the search returns *)

(** When some order of the vertices has no edge pointing backward, the
    ranking returned has none either: the edge map holds no edge from a
    vertex to one listed before it. *)
Theorem solver_respects_consistent_order (itervalues : agenda_t → list hypothesis)
    (E : gmap edge Z) (V q : list string) :
  (∀ agenda, itervalues agenda ≡ₚ agenda.*2) →
  positive_counts E →
  V ≠ [] →
  EmptyString ∉ V →
  q ≡ₚ V → backward_cost E q = 0 →
  ∃ ranking, run_lopez_mfas_solver itervalues E V = Some ranking
    ∧ ranking ≡ₚ V
    ∧ ∀ i j a b, (i < j)%nat → ranking !! i = Some a → ranking !! j = Some b →
                 E !! (b, a) = None.
Proof.
  intros Hperm Hpos Hne HV Hq Hzero.
  pose proof (positive_nonneg E Hpos) as HE.
  destruct (run_lopez_mfas_solver_optimal itervalues E V Hperm HE Hne HV)
    as (h & _ & Hrun & Hp & Hc & Hopt).
  exists (rev (placed h)). split; [done|]. split; [done|].
  assert (Hz : backward_cost E (rev (placed h)) = 0).
  { pose proof (Hopt q Hq). pose proof (backward_cost_nonneg E (rev (placed h)) HE). lia. }
  intros i j a b Hij Hi Hj.
  pose proof (backward_cost_zero E _ i j a b HE Hz Hij Hi Hj) as Hw.
  unfold weight, counter_get in Hw.
  destruct (E !! (b, a)) as [w|] eqn:Hl; [|done].
  apply Hpos in Hl. simpl in *. lia.
Qed.

Lemma solver_respects_consistent_order_witness :
  (∀ agenda, in_order agenda ≡ₚ agenda.*2)
  ∧ positive_counts edges_AB
  ∧ ["B"; "A"] ≠ []
  ∧ (EmptyString ∉ ["B"; "A"])
  ∧ ["A"; "B"] ≡ₚ ["B"; "A"]
  ∧ backward_cost edges_AB ["A"; "B"] = 0
  ∧ ∃ ranking, run_lopez_mfas_solver in_order edges_AB ["B"; "A"] = Some ranking
      ∧ ranking ≡ₚ ["B"; "A"]
      ∧ ∀ i j a b, (i < j)%nat → ranking !! i = Some a → ranking !! j = Some b →
                   edges_AB !! (b, a) = None.
Proof.
  assert (H1 : positive_counts edges_AB)
    by (refine (bool_decide_unpack _ _); vm_compute; exact I).
  assert (Hne : ["B"; "A"] ≠ []) by discriminate.
  assert (H2 : EmptyString ∉ ["B"; "A"])
    by (refine (bool_decide_unpack _ _); vm_compute; exact I).
  assert (H3 : ["A"; "B"] ≡ₚ ["B"; "A"]) by apply perm_swap.
  assert (H4 : backward_cost edges_AB ["A"; "B"] = 0) by reflexivity.
  split; [exact in_order_perm|]. split; [exact H1|]. split; [exact Hne|].
  split; [exact H2|]. split; [exact H3|]. split; [exact H4|].
  apply (solver_respects_consistent_order in_order edges_AB ["B"; "A"] ["A"; "B"]
           in_order_perm H1 Hne H2 H3 H4).
Defined.

(** On a non-empty vertex list the cost the search reports does not depend
    on the order in which the agenda yields its hypotheses. *)
Theorem search_cost_independent_of_order
    (itervalues itervalues' : agenda_t → list hypothesis)
    (E : gmap edge Z) (V : list string) :
  (∀ agenda, itervalues agenda ≡ₚ agenda.*2) →
  (∀ agenda, itervalues' agenda ≡ₚ agenda.*2) →
  nonneg_counts E →
  V ≠ [] →
  ∃ h h', search itervalues E V = Some h ∧ search itervalues' E V = Some h'
          ∧ cost h = cost h'.
Proof.
  intros Hperm Hperm' HE Hne.
  destruct (search_spec itervalues Hperm E V Hne) as (h & p & Hs & _ & Hb & Hp & Hopt).
  destruct (search_spec itervalues' Hperm' E V Hne)
    as (h' & p' & Hs' & _ & Hb' & Hp' & Hopt').
  exists h, h'. split; [done|]. split; [done|].
  pose proof (Hopt HE p' Hp') as H1. pose proof (Hopt' HE p Hp) as H2.
  rewrite <- (built_cost _ _ _ _ Hb') in H1. rewrite <- (built_cost _ _ _ _ Hb) in H2.
  lia.
Qed.

Lemma search_cost_independent_of_order_witness :
  (∀ agenda, in_order agenda ≡ₚ agenda.*2)
  ∧ (∀ agenda : agenda_t, rev agenda.*2 ≡ₚ agenda.*2)
  ∧ nonneg_counts edges_cycle
  ∧ ["A"; "B"; "C"] ≠ []
  ∧ ∃ h h', search in_order edges_cycle ["A"; "B"; "C"] = Some h
            ∧ search (λ agenda, rev agenda.*2) edges_cycle ["A"; "B"; "C"] = Some h'
            ∧ cost h = cost h'.
Proof.
  assert (H : nonneg_counts edges_cycle)
    by (refine (bool_decide_unpack _ _); vm_compute; exact I).
  assert (Hne : ["A"; "B"; "C"] ≠ []) by discriminate.
  split; [exact in_order_perm|]. split; [exact reversed_order_perm|]. split; [exact H|].
  split; [exact Hne|].
  apply (search_cost_independent_of_order in_order (λ agenda, rev agenda.*2)
           edges_cycle ["A"; "B"; "C"] in_order_perm reversed_order_perm H Hne).
Defined.

(** On a non-empty vertex list without the empty string, and with
    non-negative weights, the ranking [run_lopez_mfas_solver] returns is an
    order of the vertices of least backward weight. *)
Theorem solver_order_is_optimal (itervalues : agenda_t → list hypothesis)
    (E : gmap edge Z) (V : list string) :
  (∀ agenda, itervalues agenda ≡ₚ agenda.*2) →
  nonneg_counts E →
  V ≠ [] →
  EmptyString ∉ V →
  ∃ ranking, run_lopez_mfas_solver itervalues E V = Some ranking
    ∧ ranking ≡ₚ V
    ∧ ∀ q, q ≡ₚ V → backward_cost E ranking ≤ backward_cost E q.
Proof.
  intros Hperm HE Hne HV.
  destruct (run_lopez_mfas_solver_optimal itervalues E V Hperm HE Hne HV)
    as (h & _ & Hrun & Hp & Hc & Hopt).
  exists (rev (placed h)). split; [done|]. split; [done|].
  intros q Hq. rewrite Hc. by apply Hopt.
Qed.

Lemma solver_order_is_optimal_witness :
  (∀ agenda, in_order agenda ≡ₚ agenda.*2)
  ∧ nonneg_counts edges_cycle
  ∧ ["A"; "B"; "C"] ≠ []
  ∧ (EmptyString ∉ ["A"; "B"; "C"])
  ∧ ∃ ranking, run_lopez_mfas_solver in_order edges_cycle ["A"; "B"; "C"] = Some ranking
      ∧ ranking ≡ₚ ["A"; "B"; "C"]
      ∧ ∀ q, q ≡ₚ ["A"; "B"; "C"]
             → backward_cost edges_cycle ranking ≤ backward_cost edges_cycle q.
Proof.
  assert (H : nonneg_counts edges_cycle)
    by (refine (bool_decide_unpack _ _); vm_compute; exact I).
  assert (Hne : ["A"; "B"; "C"] ≠ []) by discriminate.
  assert (HV : EmptyString ∉ ["A"; "B"; "C"])
    by (refine (bool_decide_unpack _ _); vm_compute; exact I).
  split; [exact in_order_perm|]. split; [exact H|]. split; [exact Hne|].
  split; [exact HV|].
  apply (solver_order_is_optimal in_order edges_cycle ["A"; "B"; "C"]
           in_order_perm H Hne HV).
Defined.

(** ** Writing the ranking *)

Lemma render_snoc (data : list RankRow) (row : RankRow) :
  render (data ++ [row])
  = (if bool_decide (data = []) then render data ++ [header] else render data)
    ++ [RowLine row].
Proof.
  destruct data as [|d data]; [done|].
  rewrite bool_decide_eq_false_2 by done. simpl. by rewrite fmap_app.
Qed.

Lemma write_rows_render (src_id : Z) (row_list data : list RankRow) :
  write_rows src_id row_list (bool_decide (data = [])) (render data)
  = (bool_decide (data ++ ((λ row, replace_src_id row src_id) <$> row_list) = []),
     render (data ++ ((λ row, replace_src_id row src_id) <$> row_list))).
Proof.
  revert data. induction row_list as [|row rest IH]; intros data; simpl.
  - by rewrite app_nil_r.
  - rewrite <- render_snoc.
    replace false with (bool_decide (data ++ [replace_src_id row src_id] = []))
      by (apply bool_decide_eq_false_2; by destruct data).
    rewrite IH, <- app_assoc. done.
Qed.

Lemma rank_loop_render
    (lopez_solver : gmap edge Z → list string → option (list string))
    (src2rank : gmap Z (list Ranking)) (src_ids : list Z) (data : list RankRow)
    (f : option failure) (lines : list csv_line) :
  rank_loop lopez_solver src2rank src_ids (bool_decide (data = [])) (render data)
  = (f, lines) →
  ∃ done,
    lines = render (data ++ flat_map (segment_rows lopez_solver src2rank) done)
    ∧ Forall (λ k, is_Some (sort_tgts lopez_solver (default [] (src2rank !! k)))) done
    ∧ ((f = None ∧ src_ids = done)
       ∨ ∃ s rest, f = Some (SortError s) ∧ src_ids = done ++ s :: rest
                   ∧ sort_tgts lopez_solver (default [] (src2rank !! s)) = None).
Proof.
  revert data. induction src_ids as [|k ks IH]; intros data; simpl.
  - intros [= <- <-]. exists []. simpl. rewrite app_nil_r.
    split; [done|]. split; [constructor|]. by left.
  - destruct (sort_tgts lopez_solver (default [] (src2rank !! k))) as [row_list|] eqn:Hk.
    + rewrite write_rows_render. intros Hloop.
      destruct (IH _ Hloop) as (done & -> & Hall & Hend).
      exists (k :: done). split; [|split].
      * simpl. unfold segment_rows at 2. rewrite Hk. simpl. by rewrite <- app_assoc.
      * constructor; [by rewrite Hk|done].
      * destruct Hend as [[-> ->]|(s & rest & -> & -> & Hs)]; [by left|].
        right. by exists s, rest.
    + intros [= <- <-]. exists []. simpl. rewrite app_nil_r.
      split; [done|]. split; [constructor|]. right. by exists k, ks.
Qed.

Lemma StronglySorted_le_lt (l : list Z) :
  StronglySorted Z.le l → NoDup l → StronglySorted Z.lt l.
Proof.
  induction 1 as [|x l _ IH Hx]; intros Hnd; [constructor|].
  apply NoDup_cons in Hnd as [Hnin Hnd]. constructor; [by apply IH|].
  rewrite Forall_forall in *. intros y Hy. specialize (Hx y Hy).
  assert (x ≠ y) by (intros ->; done). lia.
Qed.

Lemma sorted_keys (src2rank : gmap Z (list Ranking)) :
  StronglySorted Z.lt (merge_sort Z.le (map_to_list src2rank).*1)
  ∧ ∀ k, k ∈ merge_sort Z.le (map_to_list src2rank).*1 ↔ is_Some (src2rank !! k).
Proof.
  split.
  - apply StronglySorted_le_lt.
    + apply StronglySorted_merge_sort; apply _.
    + rewrite merge_sort_Permutation. apply NoDup_fst_map_to_list.
  - intros k. rewrite merge_sort_Permutation, list_elem_of_fmap. split.
    + intros ([k' l] & -> & Hin). apply elem_of_map_to_list in Hin. simpl. eauto.
    + intros [l Hl]. exists (k, l). split; [done|]. by apply elem_of_map_to_list.
Qed.

(** What a run of [rank] writes once the file is read: the rows of the
    segments [done], taken in ascending order up to the first segment on
    which [sort_tgts] raises. *)
Lemma rank_file_written
    (lopez_solver : gmap edge Z → list string → option (list string))
    (linesep : string) (rows : list answer_row)
    (src2rank : gmap Z (list Ranking)) (message : string) :
  parse_answer_file_logged linesep rows = inr (src2rank, message) →
  ∃ done,
    stderr (rank_file lopez_solver linesep rows) = [message]
    ∧ stdout (rank_file lopez_solver linesep rows)
      = render (flat_map (segment_rows lopez_solver src2rank) done)
    ∧ StronglySorted Z.lt done
    ∧ ((raised (rank_file lopez_solver linesep rows) = None
        ∧ ∀ k, k ∈ done ↔ is_Some (src2rank !! k))
       ∨ ∃ s, raised (rank_file lopez_solver linesep rows) = Some (SortError s)
              ∧ is_Some (src2rank !! s)
              ∧ sort_tgts lopez_solver (default [] (src2rank !! s)) = None
              ∧ ∀ k, k ∈ done ↔ is_Some (src2rank !! k) ∧ k < s).
Proof.
  intros Hparse. unfold rank_file. rewrite Hparse.
  destruct (sorted_keys src2rank) as [Hsorted Hkeys].
  destruct (rank_loop _ _ _ _ _) as [f lines] eqn:Hloop.
  change true with (bool_decide (@nil RankRow = [])) in Hloop.
  change (@nil csv_line) with (render []) in Hloop.
  destruct (rank_loop_render _ _ _ _ _ _ Hloop) as (done & -> & _ & Hend).
  exists done. simpl. split; [done|]. split; [done|].
  destruct Hend as [[-> Hks]|(s & rest & -> & Hks & Hs)].
  - rewrite <- Hks. split; [done|]. left. split; [done|]. intros k. apply Hkeys.
  - rewrite Hks in Hsorted.
    apply StronglySorted_app in Hsorted as (Hcross & Hdone & Htail).
    apply StronglySorted_cons in Htail as [Hrest _].
    split; [done|]. right. exists s. split; [done|].
    assert (Hs_in : is_Some (src2rank !! s)).
    { apply Hkeys. rewrite Hks, elem_of_app. right. left. }
    split; [done|]. split; [done|]. intros k.
    rewrite <- Hkeys, Hks, elem_of_app, elem_of_cons.
    split.
    + intros Hk. split; [by left|]. apply (Hcross k s Hk). left.
    + intros [[Hk|[->|Hk]] Hlt]; [done|lia|].
      rewrite Forall_forall in Hrest. specialize (Hrest k Hk). lia.
Qed.

Lemma written_rows_render (data : list RankRow) : written_rows (render data) = data.
Proof.
  destruct data as [|d data]; [done|]. unfold render, written_rows. simpl. f_equal.
  induction data as [|d' data IH]; simpl; [done|]. by rewrite IH.
Qed.

(** [rank] writes nothing, or the field names once and first and then rows
    only: never the field names without a row, and never twice. *)
Theorem rank_header_once
    (lopez_solver : gmap edge Z → list string → option (list string))
    (linesep : string) (rows : list answer_row) :
  stdout (rank_file lopez_solver linesep rows) = []
  ∨ ∃ data, data ≠ []
      ∧ stdout (rank_file lopez_solver linesep rows) = header :: (RowLine <$> data).
Proof.
  destruct (parse_answer_file_logged linesep rows) as [f|[src2rank message]] eqn:Hparse.
  - left. unfold rank_file. by rewrite Hparse.
  - destruct (rank_file_written lopez_solver _ _ _ _ Hparse) as (done & _ & -> & _).
    destruct (flat_map _ done) as [|d data]; [by left|].
    right. exists (d :: data). done.
Qed.

Lemma segment_rows_src_ids
    (lopez_solver : gmap edge Z → list string → option (list string))
    (src2rank : gmap Z (list Ranking)) (k : Z) :
  Forall (λ row, row_src_id row = Some k) (segment_rows lopez_solver src2rank k).
Proof.
  unfold segment_rows. apply Forall_fmap, Forall_forall. done.
Qed.

Lemma src_ids_replicate (l : list RankRow) (k : Z) :
  Forall (λ row, row_src_id row = Some k) l →
  row_src_id <$> l = Some <$> replicate (length l) k.
Proof. induction 1 as [|row l Hrow _ IH]; csimpl; [done|]. by rewrite Hrow, IH. Qed.

Lemma filter_other_segment (l : list RankRow) (k k' : Z) :
  k' ≠ k → Forall (λ row, row_src_id row = Some k') l →
  filter (λ row, row_src_id row = Some k) l = [].
Proof.
  intros Hne. induction 1 as [|row l Hrow _ IH]; [done|].
  rewrite filter_cons_False by (rewrite Hrow; congruence). done.
Qed.

Lemma flat_map_segment_rows_sorted
    (lopez_solver : gmap edge Z → list string → option (list string))
    (src2rank : gmap Z (list Ranking)) (done : list Z) :
  StronglySorted Z.lt done →
  ∃ ids, row_src_id <$> flat_map (segment_rows lopez_solver src2rank) done = Some <$> ids
    ∧ StronglySorted Z.le ids
    ∧ Forall (λ i, i ∈ done) ids.
Proof.
  induction 1 as [|k done _ (ids & Hids & Hsorted & Hin) Hk].
  - exists []. split; [done|]. split; constructor.
  - exists (replicate (length (segment_rows lopez_solver src2rank k)) k ++ ids).
    split; [|split].
    + simpl. rewrite !fmap_app, Hids. f_equal.
      apply src_ids_replicate, segment_rows_src_ids.
    + apply StronglySorted_app. split; [|split; [|done]].
      * intros x y [-> _]%elem_of_replicate Hy.
        rewrite Forall_forall in Hin, Hk. specialize (Hk y (Hin y Hy)). lia.
      * generalize (length (segment_rows lopez_solver src2rank k)). intros n.
        induction n as [|n IHn]; simpl; constructor; [done|].
        apply Forall_forall. intros x [-> _]%elem_of_replicate. lia.
    + apply Forall_app. split.
      * apply Forall_forall. intros x [-> _]%elem_of_replicate. left.
      * eapply Forall_impl; [done|]. intros x ?. by right.
Qed.

(** Every row [rank] writes carries a segment identifier, and the
    identifiers never decrease along the rows. *)
Theorem rank_rows_ascending
    (lopez_solver : gmap edge Z → list string → option (list string))
    (linesep : string) (rows : list answer_row) :
  ∃ ids,
    row_src_id <$> written_rows (stdout (rank_file lopez_solver linesep rows))
    = Some <$> ids
    ∧ StronglySorted Z.le ids.
Proof.
  destruct (parse_answer_file_logged linesep rows) as [f|[src2rank message]] eqn:Hparse.
  - exists []. unfold rank_file. rewrite Hparse. split; [done|constructor].
  - destruct (rank_file_written lopez_solver _ _ _ _ Hparse) as (done & _ & -> & Hs & _).
    rewrite written_rows_render.
    destruct (flat_map_segment_rows_sorted lopez_solver src2rank done Hs)
      as (ids & Hids & Hsorted & _).
    by exists ids.
Qed.

(** A row that does not parse, anywhere in the file, ends the run before
    anything is written to either stream. *)
Theorem rank_malformed_row_writes_nothing
    (lopez_solver : gmap edge Z → list string → option (list string))
    (linesep : string) (rows : list answer_row) :
  Exists (λ row, is_raise (ranking_of_row row)) rows →
  ∃ e, rank_file lopez_solver linesep rows = mkRun [] [] (Some (RowError e)).
Proof.
  intros Hex. apply (parse_rows_raise rows ∅) in Hex.
  unfold rank_file, parse_answer_file_logged.
  pose proof (read_loop_spec rows 0 None ∅) as Hspec.
  destruct (read_loop rows 0 None ∅) as [[i' m']|e].
  - destruct Hspec as [Hparse _]. rewrite Hparse in Hex. done.
  - by exists e.
Qed.

Lemma rank_malformed_row_writes_nothing_witness :
  Exists (λ row, is_raise (ranking_of_row row)) malformed_file
  ∧ ∃ e, rank_file (run_lopez_mfas_solver in_order) "/" malformed_file
         = mkRun [] [] (Some (RowError e)).
Proof.
  assert (H : Exists (λ row, is_raise (ranking_of_row row)) malformed_file)
    by (apply Exists_cons_tl, Exists_cons_hd; exact I).
  split; [exact H|].
  apply (rank_malformed_row_writes_nothing (run_lopez_mfas_solver in_order) "/"
           malformed_file H).
Defined.

Lemma filter_segment_rows
    (lopez_solver : gmap edge Z → list string → option (list string))
    (src2rank : gmap Z (list Ranking)) (done : list Z) (k : Z) :
  NoDup done →
  filter (λ row, row_src_id row = Some k)
         (flat_map (segment_rows lopez_solver src2rank) done)
  = if decide (k ∈ done) then segment_rows lopez_solver src2rank k else [].
Proof.
  induction 1 as [|k' done Hnin _ IH]; cbn [flat_map].
  - by rewrite decide_False by apply not_elem_of_nil.
  - rewrite filter_app.
    pose proof (segment_rows_src_ids lopez_solver src2rank k') as Hall.
    destruct (decide (k' = k)) as [->|Hne].
    + rewrite (decide_True (P := k ∈ k :: done)) by left.
      rewrite IH, decide_False by done.
      rewrite app_nil_r. by apply filter_all.
    + rewrite (filter_other_segment _ k k' Hne Hall), IH. simpl.
      destruct (decide (k ∈ done)) as [Hin|Hnin'].
      * by rewrite decide_True by (by right).
      * rewrite decide_False; [done|]. by intros [->|?]%elem_of_cons.
Qed.

Lemma StronglySorted_lt_NoDup (l : list Z) : StronglySorted Z.lt l → NoDup l.
Proof.
  induction 1 as [|x l _ IH Hx]; constructor; [|done].
  intros Hin. rewrite Forall_forall in Hx. specialize (Hx x Hin). lia.
Qed.

(** Once the file is read, a run ends normally or at a segment on which
    [sort_tgts] raises.  The rows written for a segment of the file are the
    rows of [sort_tgts] for its judgments with the identifier filled in:
    for every segment when the run ends normally, and for the segments
    below the failing one, and no others, when it does not. *)
Theorem rank_rows_of_segment
    (lopez_solver : gmap edge Z → list string → option (list string))
    (linesep : string) (rows : list answer_row)
    (src2rank : gmap Z (list Ranking)) (message : string) (k : Z) :
  parse_answer_file_logged linesep rows = inr (src2rank, message) →
  is_Some (src2rank !! k) →
  (raised (rank_file lopez_solver linesep rows) = None
   ∧ filter (λ row, row_src_id row = Some k)
            (written_rows (stdout (rank_file lopez_solver linesep rows)))
     = segment_rows lopez_solver src2rank k)
  ∨ ∃ s, raised (rank_file lopez_solver linesep rows) = Some (SortError s)
         ∧ sort_tgts lopez_solver (default [] (src2rank !! s)) = None
         ∧ filter (λ row, row_src_id row = Some k)
                  (written_rows (stdout (rank_file lopez_solver linesep rows)))
           = if decide (k < s) then segment_rows lopez_solver src2rank k else [].
Proof.
  intros Hparse Hk.
  destruct (rank_file_written lopez_solver _ _ _ _ Hparse)
    as (done & _ & -> & Hsorted & Hend).
  rewrite written_rows_render.
  rewrite filter_segment_rows by (by apply StronglySorted_lt_NoDup).
  destruct Hend as [[-> Hdone]|(s & -> & _ & Hs & Hdone)].
  - left. split; [done|]. rewrite decide_True; [done|]. by apply Hdone.
  - right. exists s. split; [done|]. split; [done|].
    destruct (decide (k < s)) as [Hlt|Hge].
    + rewrite decide_True; [done|]. by apply Hdone.
    + rewrite decide_False; [done|]. intros [_ ?]%Hdone. done.
Qed.

Lemma rank_rows_of_segment_witness :
  parse_answer_file_logged "/" two_segments
  = inr (two_segments_src2rank, "Read: 7 rows/")
  ∧ is_Some (two_segments_src2rank !! 4)
  ∧ ((raised (rank_file (run_lopez_mfas_solver in_order) "/" two_segments) = None
      ∧ filter (λ row, row_src_id row = Some 4)
               (written_rows (stdout (rank_file (run_lopez_mfas_solver in_order) "/"
                                                two_segments)))
        = segment_rows (run_lopez_mfas_solver in_order) two_segments_src2rank 4)
     ∨ ∃ s, raised (rank_file (run_lopez_mfas_solver in_order) "/" two_segments)
            = Some (SortError s)
            ∧ sort_tgts (run_lopez_mfas_solver in_order)
                        (default [] (two_segments_src2rank !! s)) = None
            ∧ filter (λ row, row_src_id row = Some 4)
                     (written_rows (stdout (rank_file (run_lopez_mfas_solver in_order) "/"
                                                      two_segments)))
              = if decide (4 < s)
                then segment_rows (run_lopez_mfas_solver in_order) two_segments_src2rank 4
                else []).
Proof.
  assert (H1 : parse_answer_file_logged "/" two_segments
               = inr (two_segments_src2rank, "Read: 7 rows/"))
    by (vm_compute; reflexivity).
  assert (H2 : is_Some (two_segments_src2rank !! 4))
    by (refine (bool_decide_unpack _ _); vm_compute; exact I).
  split; [exact H1|]. split; [exact H2|].
  apply (rank_rows_of_segment (run_lopez_mfas_solver in_order) "/" two_segments
           two_segments_src2rank "Read: 7 rows/" 4 H1 H2).
Defined.
